(** * Geekbot: the document indexing and synchronisation layer

    A shallow embedding of [storage_utils.py] and of the indexing and reset
    functions of [app.py], with the properties of the indexing subsystem
    stated and proved over it.

    Python dictionaries are finite maps ([gmap]), Python exceptions are the
    [Raise] of a [result], and the functions that mutate the vector
    store or the store directory take the state as an argument and return the
    new one.  The vector store is a map from identifiers to records; the
    store directory is a list of files, some of them locked.  What the program
    asks of its platform (path resolution, the file system it indexes, the
    document loaders and the text splitter) is a parameter of the
    development. *)

From stdpp Require Import gmap strings pretty list fin_maps.
From Stdlib Require Import ZArith Lia Ascii.


(** ** Python values and documents *)

(** The metadata values the indexing code handles: strings (source paths,
    identifiers, file names) and integers (page numbers).  A key that is
    absent from a dictionary is the [None] of a lookup. *)
Inductive value :=
| VStr (s : string)
| VInt (z : Z).

#[global] Instance value_eq_dec : EqDecision value.
Proof. solve_decision. Defined.

(** Python truthiness: the empty string, [0] and [None] are false. *)
Definition truthy_value (v : value) : bool :=
  match v with
  | VStr s => negb (String.eqb s EmptyString)
  | VInt z => negb (Z.eqb z 0)
  end.

Definition truthy (v : option value) : bool :=
  match v with
  | None => false
  | Some v => truthy_value v
  end.

(** [str(v)], as an f-string formats a value. *)
Definition py_str (v : value) : string :=
  match v with
  | VStr s => s
  | VInt z => pretty z
  end.

(** [langchain.schema.Document]: a text and a metadata dictionary. *)
Record Document := mkDocument {
  page_content : string;
  metadata : gmap string value
}.

#[global] Instance Document_eq_dec : EqDecision Document.
Proof. solve_decision. Defined.

Definition METADATA_SOURCE_KEY : string := "source".
Arguments METADATA_SOURCE_KEY : simpl never.

Definition set_metadata (k : string) (v : value) (d : Document) : Document :=
  mkDocument (page_content d) (<[k := v]> (metadata d)).

(** ** [calculate_chunk_ids] *)

(** [chunk.metadata.get(METADATA_SOURCE_KEY)], or the empty string when
    that is false. *)
Definition chunk_source (chunk : Document) : value :=
  let v := metadata chunk !! METADATA_SOURCE_KEY in
  if truthy v then default (VStr EmptyString) v else VStr EmptyString.

(** [chunk.metadata.get("page", 0)] *)
Definition chunk_page (chunk : Document) : value :=
  default (VInt 0) (metadata chunk !! "page").

(** [f"{source}:{page}"] *)
Definition current_page_id (chunk : Document) : string :=
  py_str (chunk_source chunk) +:+ ":" +:+ py_str (chunk_page chunk).

(** The [if current_page_id == last_page_id] of the loop body: the counter
    after seeing a chunk whose page id is [pid]. *)
Definition next_chunk_index (last_page_id : option string) (idx : nat)
    (pid : string) : nat :=
  if decide (last_page_id = Some pid) then S idx else 0.

(** [f"{current_page_id}:{current_chunk_index}"] *)
Definition chunk_id_of (pid : string) (idx : nat) : string :=
  pid +:+ ":" +:+ pretty idx.

(** The loop of [calculate_chunk_ids], from the state
    [(last_page_id, current_chunk_index)]. *)
Fixpoint calculate_chunk_ids_from (last_page_id : option string)
    (current_chunk_index : nat) (chunks : list Document) : list Document :=
  match chunks with
  | [] => []
  | chunk :: rest =>
      let pid := current_page_id chunk in
      let idx := next_chunk_index last_page_id current_chunk_index pid in
      set_metadata "id" (VStr (chunk_id_of pid idx)) chunk
        :: calculate_chunk_ids_from (Some pid) idx rest
  end.

Definition calculate_chunk_ids (chunks : list Document) : list Document :=
  calculate_chunk_ids_from None 0 chunks.

(** [c.metadata.get("id")] *)
Definition get_id (c : Document) : option value := metadata c !! "id".

(** The identifier of a chunk as a string, empty if it has none. *)
Definition id_string (c : Document) : string :=
  match get_id c with
  | Some v => py_str v
  | None => EmptyString
  end.

(** The counters the loop assigns, without the documents. *)
Fixpoint chunk_indices_from (last_page_id : option string)
    (current_chunk_index : nat) (pids : list string) : list nat :=
  match pids with
  | [] => []
  | pid :: rest =>
      let idx := next_chunk_index last_page_id current_chunk_index pid in
      idx :: chunk_indices_from (Some pid) idx rest
  end.

Definition chunk_indices (chunks : list Document) : list nat :=
  chunk_indices_from None 0 (current_page_id <$> chunks).

(** Chunks that share a page key are adjacent: between two positions with
    the same key every position has that key. *)
Definition same_page_adjacent {K} (keys : list K) : Prop :=
  ∀ i j k key,
    i < j < k → keys !! i = Some key → keys !! k = Some key →
    keys !! j = Some key.

(** The (source, page) pair of a chunk, as the loop reads it. *)
Definition page_key (chunk : Document) : value * value :=
  (chunk_source chunk, chunk_page chunk).

(** The source of the chunk is a string and its page is an integer. *)
Definition typed_chunk (chunk : Document) : Prop :=
  (∃ s, chunk_source chunk = VStr s) ∧ (∃ z, chunk_page chunk = VInt z).

(** The chunk at position [j] starts a run of its page id: it is the first
    chunk, or the chunk before it has another page id. *)
Definition page_starts_at (chunks : list Document) (j : nat) : Prop :=
  match j with
  | 0 => True
  | S i =>
      ∃ p c, chunks !! i = Some p ∧ chunks !! S i = Some c
             ∧ current_page_id p ≠ current_page_id c
  end.

(** A string without the separator [":"]. *)
Fixpoint no_colon (s : string) : Prop :=
  match s with
  | EmptyString => True
  | String c rest => c ≠ ":"%char ∧ no_colon rest
  end.

(** ** The deduplication loop of [query_rag] *)

(** The loop that keeps, of the retrieved documents, the first one of each
    identifier; [seen] is the set of identifiers met so far. *)
Fixpoint unique_local_from (seen : list (option value))
    (local_docs : list Document) : list Document :=
  match local_docs with
  | [] => []
  | d :: rest =>
      let docid := get_id d in
      if truthy docid && bool_decide (docid ∉ seen)
      then d :: unique_local_from (docid :: seen) rest
      else unique_local_from seen rest
  end.

Definition unique_local (local_docs : list Document) : list Document :=
  unique_local_from [] local_docs.

(** ** Exceptions *)

Inductive exn :=
| TypeError
| ValueError
| KeyError
| RuntimeError
| PermissionError
| FileNotFoundError
| BackendError.

(** The outcome of a call that may raise. *)
Inductive result (A : Type) :=
| Ok (a : A)
| Raise (e : exn).
Arguments Ok {A} a.
Arguments Raise {A} e.

#[global] Instance exn_eq_dec : EqDecision exn.
Proof. solve_decision. Defined.

#[global] Instance result_eq_dec `{EqDecision A} : EqDecision (result A).
Proof. solve_decision. Defined.

#[global] Instance result_ret : MRet result := λ A a, Ok a.
#[global] Instance result_bind : MBind result := λ A B k r,
  match r with
  | Ok a => k a
  | Raise e => Raise e
  end.

(** A [for] loop that rebuilds a list and stops at the first exception. *)
Fixpoint for_each {A B} (f : A → result B) (l : list A) : result (list B) :=
  match l with
  | [] => Ok []
  | a :: rest =>
      b ← f a;
      bs ← for_each f rest;
      Ok (b :: bs)
  end.

(** ** The vector store *)

(** Modelled from the spec: the Chroma vector store is an external library.
    The model follows the contract of the Vector Store Adapter: a persistent
    structure mapping chunk identifiers to records, with [get], [add_documents]
    and [delete] by identifier (no-op if an identifier is absent).  [Broken] is
    a store whose calls raise. *)
Inductive chroma :=
| Broken
| Store (records : gmap string Document).

(** What [db.get(...)] returns: the ["ids"] and ["metadatas"] lists. *)
Record get_result := mkGet {
  get_ids : list string;
  get_metadatas : list (gmap string value)
}.

(** The items that the [include] argument of [db.get] may name.  The
    identifiers are part of every result and are not an item: ["ids"] is
    not in the list. *)
Definition INCLUDE_ITEMS : list string :=
  ["documents"; "embeddings"; "metadatas"; "uris"; "data"].

(** What [db.get()] includes when it is given no [include] argument. *)
Definition DEFAULT_INCLUDE : list string := ["metadatas"; "documents"].

Definition valid_include (include : list string) : bool :=
  forallb (λ item, bool_decide (item ∈ INCLUDE_ITEMS)) include.

(** Modelled from the spec: [db.get(include=...)], a full scan of the
    store.  The library checks the [include] list before it reads anything
    and raises [ValueError] when the list names something that is not an
    item. *)
Definition db_get (include : list string) (db : chroma) : result get_result :=
  if valid_include include then
    match db with
    | Broken => Raise BackendError
    | Store m =>
        Ok (mkGet (map_to_list m).*1 (metadata <$> (map_to_list m).*2))
    end
  else Raise ValueError.

(** Records written one after the other; a record written under an
    identifier that is present replaces the old one. *)
Definition upsert_all (m : gmap string Document)
    (rows : list (string * Document)) : gmap string Document :=
  foldl (λ acc ic, <[ic.1 := ic.2]> acc) m rows.

(** Modelled from the spec: [db.add_documents(batch_chunks, ids=batch_ids)]
    writes one record per chunk under its identifier. *)
Definition db_add_documents (batch_chunks : list Document)
    (batch_ids : list string) (db : chroma) : result chroma :=
  match db with
  | Broken => Raise BackendError
  | Store m => Ok (Store (upsert_all m (zip batch_ids batch_chunks)))
  end.

(** Modelled from the spec: [db.delete(ids=ids)] removes the records with
    these identifiers and ignores an identifier that is absent. *)
Definition db_delete (ids : list string) (db : chroma) : result chroma :=
  match db with
  | Broken => Raise BackendError
  | Store m => Ok (Store (filter (λ kv, kv.1 ∉ ids) m))
  end.

(** Number of records in the store. *)
Definition record_count (db : chroma) : nat :=
  match db with
  | Broken => 0
  | Store m => size m
  end.

(** ** Python ranges and slices *)

(** [range(0, stop, step)] for [stop >= 0]: a zero step raises, a negative
    step gives the empty range. *)
Definition py_range (stop : nat) (step : Z) : result (list nat) :=
  if decide (step = 0)%Z then Raise ValueError
  else if decide (step < 0)%Z then Ok []
  else
    let s := Z.to_nat step in
    Ok ((λ k, k * s) <$> seq 0 ((stop + s - 1) `div` s)).

(** [l[i:i + n]] for [i >= 0] and [n > 0]. *)
Definition slice {A} (l : list A) (i n : nat) : list A := take n (drop i l).

(** ** The file system *)

(** A file-system node, as [os.walk] sees it: a regular file, or a directory
    with its entries in listing order; a node carries its own name
    ([path.name]). *)
#[warnings="-register-all"]
Inductive fsnode :=
| FFile (name : string)
| FDir (name : string) (entries : list fsnode).

Definition node_name (n : fsnode) : string :=
  match n with FFile name => name | FDir name _ => name end.

Definition is_file (n : option fsnode) : bool :=
  match n with Some (FFile _) => true | _ => false end.

Definition is_dir (n : option fsnode) : bool :=
  match n with Some (FDir _ _) => true | _ => false end.

(** The keys of the [SUPPORTED_LOADERS] table. *)
Definition SUPPORTED_LOADERS : list string :=
  [".py"; ".pdf"; ".txt"; ".csv"; ".docx"; ".xlsx"; ".md"; ".pptx"; ".html";
   ".ipynb"; ".json"].

(** ** The store directory *)

(** The directory [CHROMA_PATH]: absent, or present with its files; a file
    that another handle keeps open cannot be removed ([locked]). *)
Record dir_entry := mkEntry {
  entry_name : string;
  locked : bool
}.

Definition chroma_dir := option (list dir_entry).

Definition RESET_MARKER : string := ".reset_required".

Definition is_marker (e : dir_entry) : bool :=
  String.eqb (entry_name e) RESET_MARKER.

(** [RESET_MARKER.exists()] *)
Definition marker_exists (d : chroma_dir) : bool :=
  match d with
  | None => false
  | Some es => existsb is_marker es
  end.

(** [CHROMA_PATH.exists()] *)
Definition dir_exists (d : chroma_dir) : bool :=
  match d with None => false | Some _ => true end.

(** [CHROMA_PATH.mkdir(parents=True, exist_ok=True)] *)
Definition mkdir (d : chroma_dir) : chroma_dir :=
  match d with
  | None => Some []
  | Some es => Some es
  end.

(** The files [shutil.rmtree] leaves when it stops at the first file it
    cannot remove. *)
Fixpoint remove_until_locked (es : list dir_entry) : list dir_entry :=
  match es with
  | [] => []
  | e :: rest => if locked e then e :: rest else remove_until_locked rest
  end.

(** [shutil.rmtree(CHROMA_PATH)]: the directory that is left, and the
    exception if there is one. *)
Definition rmtree (d : chroma_dir) : chroma_dir * option exn :=
  match d with
  | None => (None, Some FileNotFoundError)
  | Some es =>
      match remove_until_locked es with
      | [] => (None, None)
      | left_over => (Some left_over, Some PermissionError)
      end
  end.

(** [shutil.rmtree(CHROMA_PATH, ignore_errors=True)]: every file that can be
    removed is removed, and the directory too when it ends up empty. *)
Definition rmtree_ignore_errors (d : chroma_dir) : chroma_dir :=
  match d with
  | None => None
  | Some es =>
      match filter (λ e, locked e = true) es with
      | [] => None
      | left_over => Some left_over
      end
  end.

(** [RESET_MARKER.unlink(missing_ok=True)] *)
Definition unlink_marker (d : chroma_dir) : result chroma_dir :=
  match d with
  | None => Ok None
  | Some es =>
      if existsb (λ e, is_marker e && locked e) es
      then Raise PermissionError
      else Ok (Some (filter (λ e, is_marker e = false) es))
  end.

(** [RESET_MARKER.write_text("reset required")] *)
Definition write_marker (d : chroma_dir) : result chroma_dir :=
  match d with
  | None => Raise FileNotFoundError
  | Some es =>
      if existsb is_marker es then
        if existsb (λ e, is_marker e && locked e) es
        then Raise PermissionError
        else Ok (Some es)
      else Ok (Some (es ++ [mkEntry RESET_MARKER false]))
  end.

(** [auto_reset_chroma] *)
Definition auto_reset_chroma (d : chroma_dir) : result chroma_dir :=
  if marker_exists d then
    d1 ← unlink_marker (rmtree_ignore_errors d);
    Ok (mkdir d1)
  else Ok d.

(** ** A sample platform

    A small file system, used to run the functions on concrete inputs:
    a directory [/data/report] with one text file, and a text file
    [/data/report2.txt] next to it.  The loader returns two documents per
    file and the splitter makes one chunk of each document. *)
Module Sample.

Definition resolve (p : string) : string :=
  match p with
  | EmptyString => "/srv"
  | _ => p
  end.

(** The sample system has one user: a path that starts with [~name] cannot
    be expanded. *)
Definition resolve_error (p : string) : option exn :=
  match p with
  | String "~" (String c _) =>
      if Ascii.eqb c "/" then None else Some RuntimeError
  | _ => None
  end.

Definition fs (p : string) : option fsnode :=
  if String.eqb p "/data/report" then
    Some (FDir "report" [FFile "a.txt"])
  else if String.eqb p "/data/report/a.txt" then Some (FFile "a.txt")
  else if String.eqb p "/data/report2.txt" then Some (FFile "report2.txt")
  else None.

Definition joinpath (root fname : string) : string :=
  root +:+ "/" +:+ fname.

Definition suffix_lower (name : string) : string := ".txt".

Definition loader_load (suffix path : string) : result (list Document) :=
  Ok [mkDocument "first page" ∅;
      mkDocument "second page" {["page" := VInt 1]}].

Definition text_splitter (docs : list Document) : list Document := docs.

(** A record of [/data/report2.txt], and one without a source. *)
Definition report2_record : Document :=
  mkDocument "other file"
    {[METADATA_SOURCE_KEY := VStr "/data/report2.txt"; "page" := VInt 0]}.

Definition anonymous_record : Document :=
  mkDocument "no source" {["page" := VInt 0]}.

Definition store : gmap string Document :=
  {["/data/report2.txt:0:0" := report2_record;
    ":0:0" := anonymous_record]}.

(** Three chunks of one source: two of page 0, one of page 1. *)
Definition chunk (page : Z) (text : string) : Document :=
  mkDocument text
    {[METADATA_SOURCE_KEY := VStr "/data/report/a.txt";
      "page" := VInt page]}.

Definition chunks : list Document :=
  [chunk 0 "one"; chunk 0 "two"; chunk 1 "three"].

End Sample.

(** More sample data: chunks whose pages are not adjacent, a record with
    an integer source, retrieved documents with repeated identifiers, and a
    store directory. *)
Module More.

Definition scattered : list Document :=
  [Sample.chunk 0 "one"; Sample.chunk 1 "two"; Sample.chunk 0 "three"].

Definition single_page : list Document :=
  [Sample.chunk 0 "one"; Sample.chunk 0 "two"; Sample.chunk 0 "three"].

Definition integer_record : Document :=
  mkDocument "odd" {[METADATA_SOURCE_KEY := VInt 7]}.

Definition poisoned : gmap string Document :=
  {["/data/report2.txt:0:0" := Sample.report2_record;
    "7:0:0" := integer_record]}.

Definition retrieved (id text : string) : Document :=
  mkDocument text {["id" := VStr id]}.

Definition local_docs : list Document :=
  [retrieved "a:0:0" "first"; retrieved "b:0:0" "second";
   retrieved "a:0:0" "first"; mkDocument "no id" ∅;
   retrieved "b:0:0" "second"].

(** A store that holds an old record under the identifier of the first
    sample chunk. *)
Definition stale_record : Document :=
  mkDocument "old text"
    {[METADATA_SOURCE_KEY := VStr "/data/report/a.txt"; "page" := VInt 0;
      "id" := VStr "/data/report/a.txt:0:0"]}.

Definition stale_store : gmap string Document :=
  {["/data/report/a.txt:0:0" := stale_record]}.

(** A store with a record of a chunk that [/data/report/a.txt] had when
    it was longer. *)
Definition leftover_store : gmap string Document :=
  {["/data/report/a.txt:0:1" :=
      mkDocument "no longer in the file"
        {[METADATA_SOURCE_KEY := VStr "/data/report/a.txt";
          "page" := VInt 0; "id" := VStr "/data/report/a.txt:0:1"]}]}.

Definition unsupported (name : string) : string := ".bin".

Definition unlocked_dir : list dir_entry :=
  [mkEntry "chroma.sqlite3" false; mkEntry RESET_MARKER false].

Definition marked_dir : list dir_entry :=
  [mkEntry RESET_MARKER false; mkEntry "chroma.sqlite3" true;
   mkEntry "index.bin" false].

End More.

(** ** The synchronisation layer *)

Section Geekbot.

(** The platform the program runs on. *)

(** [str(Path(p).expanduser().resolve())], for a text that is a path. *)
Variable resolve : string → string.
(** The exception that [Path(p).expanduser().resolve()] raises on a text
    the user typed that cannot be resolved: [RuntimeError] for the [~name]
    of an unknown user, [ValueError] for a text with a NUL character. *)
Variable resolve_error : string → option exn.
(** The node at a resolved path, if the path exists. *)
Variable fs : string → option fsnode.
(** [str(Path(root) / fname)] *)
Variable joinpath : string → string → string.
(** [Path(name).suffix.lower()] *)
Variable suffix_lower : string → string.
(** [SUPPORTED_LOADERS[suffix](path).load()] *)
Variable loader_load : string → string → result (list Document).
(** [TEXT_SPLITTER.split_documents] *)
Variable text_splitter : list Document → list Document.

(** [normalize_source_path]; [Path] refuses an argument that is not a
    string.  The strings it is given are the sources of loaded documents and
    paths that [index_path] has resolved. *)
Definition normalize_source_path (p : option value) : result string :=
  match p with
  | None => Ok EmptyString
  | Some (VStr s) => Ok (resolve s)
  | Some (VInt _) => Raise TypeError
  end.

Definition split_documents (documents : list Document) : list Document :=
  text_splitter documents.

(** *** [add_to_chroma] *)

(** The body of the first loop of [add_to_chroma]. *)
Definition normalize_chunk (c : Document) : result Document :=
  let src := metadata c !! METADATA_SOURCE_KEY in
  if truthy src then
    n ← normalize_source_path src;
    Ok (set_metadata METADATA_SOURCE_KEY (VStr n) c)
  else Ok c.

(** [c.metadata.get("id") not in existing_ids] *)
Definition id_is_new (existing_ids : gset string) (c : Document) : Prop :=
  match get_id c with
  | Some (VStr i) => i ∉ existing_ids
  | _ => True
  end.

#[global] Instance id_is_new_dec existing_ids c :
  Decision (id_is_new existing_ids c).
Proof. unfold id_is_new. destruct (get_id c) as [[]|]; apply _. Defined.

(** [c.metadata["id"]] *)
Definition metadata_id (c : Document) : result string :=
  match get_id c with
  | Some v => Ok (py_str v)
  | None => Raise KeyError
  end.

(** The arguments of the successive [db.add_documents] calls. *)
Definition add_batches (new_chunks : list Document) (new_ids : list string)
    (batch_size : Z) : result (list (list Document * list string)) :=
  starts ← py_range (length new_chunks) batch_size;
  Ok ((λ i, (slice new_chunks i (Z.to_nat batch_size),
             slice new_ids i (Z.to_nat batch_size))) <$> (starts : list nat)).

(** The batches of a positive batch size, and the rows they write. *)
Definition batches_of (new_chunks : list Document) (batch_size : Z)
    : list (list Document * list string) :=
  (λ i, (slice new_chunks i (Z.to_nat batch_size),
         slice (id_string <$> new_chunks) i (Z.to_nat batch_size)))
  <$> ((λ k, k * Z.to_nat batch_size)
       <$> seq 0 ((length new_chunks + Z.to_nat batch_size - 1)
                  `div` Z.to_nat batch_size)).

Fixpoint add_all (batches : list (list Document * list string))
    (db : chroma) : result chroma :=
  match batches with
  | [] => Ok db
  | (batch_chunks, batch_ids) :: rest =>
      db1 ← db_add_documents batch_chunks batch_ids db;
      add_all rest db1
  end.

(** [set(existing.get("ids", []))] for [existing = db.get(include=["ids"])],
    or the empty set when [db.get] raises. *)
Definition existing_ids_of (db : chroma) : gset string :=
  match db_get ["ids"] db with
  | Ok existing => list_to_set (get_ids existing)
  | Raise _ => ∅
  end.

(** The list comprehension of [add_to_chroma]: the chunks whose identifier
    is not in [existing_ids]. *)
Definition new_chunks_of (chunks_with_ids : list Document) (db : chroma)
    : list Document :=
  filter (id_is_new (existing_ids_of db)) chunks_with_ids.

(** [add_to_chroma]; the result is the returned count and the store.
    Creating the directory and opening the store do not change the
    records. *)
Definition add_to_chroma (chunks : list Document) (batch_size : Z)
    (db : chroma) : result (nat * chroma) :=
  match chunks with
  | [] => Ok (0, db)
  | _ =>
      normalized ← for_each normalize_chunk chunks;
      let chunks_with_ids := calculate_chunk_ids normalized in
      let new_chunks := new_chunks_of chunks_with_ids db in
      match new_chunks with
      | [] => Ok (0, db)
      | _ =>
          new_ids ← for_each metadata_id new_chunks;
          batches ← add_batches new_chunks new_ids batch_size;
          db1 ← add_all batches db;
          Ok (length new_chunks, db1)
      end
  end.

(** *** [delete_from_chroma_by_source] *)

(** [src_norm.startswith(normalized)] *)
Definition startswith (s pre : string) : bool := String.prefix pre s.

(** The test of one [(doc_id, meta)] row in the loop of
    [delete_from_chroma_by_source]. *)
Definition source_matches (normalized : string) (isdir : bool)
    (meta : gmap string value) : result bool :=
  let src := default (VStr EmptyString) (meta !! METADATA_SOURCE_KEY) in
  if negb (truthy_value src) then Ok false
  else
    src_norm ← normalize_source_path (Some src);
    if isdir then Ok (startswith src_norm normalized)
    else Ok (bool_decide (src_norm = normalized)).

Fixpoint ids_to_delete_of (normalized : string) (isdir : bool)
    (rows : list (string * gmap string value)) : result (list string) :=
  match rows with
  | [] => Ok []
  | (doc_id, meta) :: rest =>
      hit ← source_matches normalized isdir meta;
      ids ← ids_to_delete_of normalized isdir rest;
      Ok (if hit : bool then doc_id :: ids else ids)
  end.

(** The [try] block of [delete_from_chroma_by_source].  A result of
    [db.get] always has its ["ids"], so the early [return 0] for a result
    without them is not taken. *)
Definition delete_try (normalized : string) (db : chroma)
    : result (nat * chroma) :=
  all_docs ← db_get ["metadatas"; "ids"] db;
  let isdir := is_dir (fs normalized) in
  ids_to_delete ←
    ids_to_delete_of normalized isdir
      (zip (get_ids all_docs) (get_metadatas all_docs));
  match ids_to_delete with
  | [] => Ok (0, db)
  | _ =>
      db1 ← db_delete ids_to_delete db;
      Ok (length ids_to_delete, db1)
  end.

(** [delete_from_chroma_by_source]; the [except Exception] around the
    body turns every exception into the result 0. *)
Definition delete_from_chroma_by_source (source_path : string)
    (db : chroma) : nat * chroma :=
  let normalized := resolve source_path in
  match delete_try normalized db with
  | Ok r => r
  | Raise _ => (0, db)
  end.

(** *** [list_sources_in_chroma] *)

Fixpoint count_sources (rows : list (string * gmap string value))
    (sources : gmap string nat) : result (gmap string nat) :=
  match rows with
  | [] => Ok sources
  | (doc_id, meta) :: rest =>
      let src := meta !! METADATA_SOURCE_KEY in
      if truthy src then
        n ← normalize_source_path src;
        count_sources rest (<[n := default 0 (sources !! n) + 1]> sources)
      else count_sources rest sources
  end.

(** [list_sources_in_chroma]; an exception gives the empty mapping. *)
Definition list_sources_in_chroma (db : chroma) : gmap string nat :=
  match
    data ← db_get ["metadatas"; "ids"] db;
    count_sources (zip (get_ids data) (get_metadatas data)) ∅
  with
  | Ok sources => sources
  | Raise _ => ∅
  end.

(** A record is listed under [n]: its source is true and normalises to
    [n]. *)
Definition counted_under (n : string) (meta : gmap string value) : Prop :=
  truthy (meta !! METADATA_SOURCE_KEY) = true
  ∧ normalize_source_path (meta !! METADATA_SOURCE_KEY) = Ok n.

#[global] Instance counted_under_dec n meta :
  Decision (counted_under n meta).
Proof. unfold counted_under. apply _. Defined.

(** The source of a record is absent, false, or a string. *)
Definition source_is_path (meta : gmap string value) : Prop :=
  match meta !! METADATA_SOURCE_KEY with
  | Some (VInt z) => z = 0%Z
  | _ => True
  end.

#[global] Instance source_is_path_dec meta : Decision (source_is_path meta).
Proof.
  unfold source_is_path.
  destruct (meta !! METADATA_SOURCE_KEY) as [[]|]; apply _.
Defined.

(** The source is a non-zero integer: [Path] refuses it. *)
Definition integer_source (meta : gmap string value) : Prop :=
  ∃ z, meta !! METADATA_SOURCE_KEY = Some (VInt z) ∧ z ≠ 0%Z.

(** A record is selected by [delete_from_chroma_by_source]. *)
Definition selected (normalized : string) (isdir : bool)
    (meta : gmap string value) : Prop :=
  source_matches normalized isdir meta = Ok true.

#[global] Instance selected_dec normalized isdir meta :
  Decision (selected normalized isdir meta).
Proof. unfold selected. apply _. Defined.


(** *** [load_docs_for_path] and [index_path] *)

(** [os.walk(root)]: top-down, one [(root, files)] pair per directory.  A
    path that is not a directory yields nothing. *)
Fixpoint os_walk (root : string) (n : fsnode)
    : list (string * list string) :=
  match n with
  | FFile _ => []
  | FDir _ entries =>
      (root, node_name <$> filter (λ e, is_file (Some e) = true) entries)
      :: flat_map (λ e, os_walk (joinpath root (node_name e)) e) entries
  end.

(** The [metadata.update] of [load_docs_for_path]. *)
Definition tag_document (path name : string) (d : Document) : Document :=
  mkDocument (page_content d)
    (<["page" := default (VInt 0) (metadata d !! "page")]>
     (<[METADATA_SOURCE_KEY := VStr (resolve path)]>
      (<["file_type" := VStr (suffix_lower name)]>
       (<["file_name" := VStr name]> (metadata d))))).

(** The [path.is_file()] branch of [load_docs_for_path]. *)
Definition load_file (path name : string) : result (list Document) :=
  let suffix := suffix_lower name in
  if decide (suffix ∈ SUPPORTED_LOADERS) then
    file_docs ← loader_load suffix path;
    Ok (tag_document path name <$> (file_docs : list Document))
  else Ok [].

(** [load_docs_for_path]; the recursive call on a file that [os.walk]
    lists takes the [path.is_file()] branch. *)
Definition load_docs_for_path (path : string) : result (list Document) :=
  match fs path with
  | Some (FFile name) => load_file path name
  | Some (FDir _ _ as n) =>
      per_dir ← for_each (λ rf : string * list string,
                   per_file ← for_each (λ fname,
                                 load_file (joinpath rf.1 fname) fname) rf.2;
                   Ok (concat (per_file : list (list Document))))
                 (os_walk path n);
      Ok (concat (per_dir : list (list Document)))
  | None => Ok []
  end.

(** [Path(path).expanduser().resolve()] on the text the user typed. *)
Definition resolve_path (path : string) : result string :=
  match resolve_error path with
  | Some e => Raise e
  | None => Ok (resolve path)
  end.

(** [index_path]; the result is the returned pair and the store.  The
    path is resolved before the [exists()] guard, outside any [try]. *)
Definition index_path (path : string) (db : chroma)
    : result (nat * nat * chroma) :=
  path_obj ← resolve_path path;
  if negb (bool_decide (is_Some (fs path_obj))) then Ok (0, 0, db)
  else
    let '(removed, db1) := delete_from_chroma_by_source path_obj db in
    docs ← load_docs_for_path path_obj;
    match docs with
    | [] => Ok (0, 0, db1)
    | _ =>
        let chunks := split_documents docs in
        r ← add_to_chroma chunks 2000 db1;
        Ok (length docs, r.1, r.2)
    end.

(** *** [clear_chroma] and the start of the script *)

(** The first [try] block of [clear_chroma]: delete every record through
    the store's interface. *)
Definition clear_records (db : chroma) : chroma :=
  match
    got ← db_get DEFAULT_INCLUDE db;
    match get_ids got with
    | [] => Ok db
    | ids => db_delete ids db
    end
  with
  | Ok db1 => db1
  | Raise _ => db
  end.

(** The second [try] block of [clear_chroma]: remove the directory, or
    leave the reset marker when a file is locked. *)
Definition remove_or_mark (d : chroma_dir) : result chroma_dir :=
  if dir_exists d then
    match rmtree d with
    | (d1, None) => Ok d1
    | (d1, Some PermissionError) => write_marker d1
    | (_, Some e) => Raise e
    end
  else Ok d.

Definition clear_chroma (w : chroma * chroma_dir)
    : result (chroma * chroma_dir) :=
  let db1 := clear_records w.1 in
  d1 ← remove_or_mark w.2;
  Ok (db1, mkdir d1).

(** One run of the script: [auto_reset_chroma()] is called at the top of
    the module, before the handler of the user's action. *)
Definition run_script {A} (handler : chroma * chroma_dir → result A)
    (w : chroma * chroma_dir) : result A :=
  d1 ← auto_reset_chroma w.2;
  handler (w.1, d1).


(** ** Properties of the identifier assignment *)

Lemma append_nil t : EmptyString +:+ t = t.
Proof. reflexivity. Qed.

Lemma append_cons a s t : String a s +:+ t = String a (s +:+ t).
Proof. reflexivity. Qed.

Lemma no_colon_app_colon s t : ¬ no_colon (s +:+ String ":" t).
Proof.
  induction s as [|c s IH]; rewrite ?append_nil, ?append_cons;
    simpl; intros [? ?]; auto.
Qed.

Lemma app_colon_inj s1 s2 t1 t2 :
  no_colon t1 → no_colon t2 →
  s1 +:+ String ":" t1 = s2 +:+ String ":" t2 → s1 = s2 ∧ t1 = t2.
Proof.
  intros H1 H2. revert s2.
  induction s1 as [|a s1 IH]; intros [|c s2];
    rewrite ?append_nil, ?append_cons; intros Heq.
  - by simplify_eq.
  - simplify_eq. exfalso. by eapply no_colon_app_colon.
  - simplify_eq. exfalso. by eapply no_colon_app_colon.
  - simplify_eq. destruct (IH s2) as [-> ->]; auto.
Qed.

Lemma pretty_N_char_no_colon d : pretty_N_char d ≠ ":"%char.
Proof. unfold pretty_N_char. by repeat case_match. Qed.

Lemma pretty_N_go_no_colon x s : no_colon s → no_colon (pretty_N_go x s).
Proof.
  revert s. induction (N.lt_wf_0 x) as [x _ IH]; intros s Hs.
  assert (x = 0 ∨ 0 < x)%N as [->|Hx] by lia.
  - by rewrite pretty_N_go_0.
  - rewrite pretty_N_go_step by done. apply IH.
    + by apply N.div_lt.
    + split; [apply pretty_N_char_no_colon | done].
Qed.

Lemma pretty_nat_no_colon (n : nat) : no_colon (pretty n).
Proof.
  unfold pretty, pretty_nat, pretty, pretty_N.
  case_decide.
  - simpl. split; [done | exact I].
  - by apply pretty_N_go_no_colon.
Qed.

(** An identifier determines its page id and its counter. *)
Lemma chunk_id_of_inj p q (i j : nat) :
  chunk_id_of p i = chunk_id_of q j → p = q ∧ i = j.
Proof.
  unfold chunk_id_of. intros Heq.
  change (p +:+ String ":" (pretty i) = q +:+ String ":" (pretty j)) in Heq.
  apply app_colon_inj in Heq as [-> Hij]; auto using pretty_nat_no_colon.
  split; [done | by apply (inj pretty)].
Qed.

(** The identifiers are the page ids paired with the counters. *)
Lemma get_id_calculate_from last n chunks :
  get_id <$> calculate_chunk_ids_from last n chunks
  = (λ pi, Some (VStr (chunk_id_of pi.1 pi.2)))
    <$> zip (current_page_id <$> chunks)
            (chunk_indices_from last n (current_page_id <$> chunks)).
Proof.
  revert last n. induction chunks as [|c rest IH]; intros last n; [done|].
  simpl. rewrite IH. f_equal.
  unfold get_id, set_metadata. simpl. by rewrite lookup_insert_eq.
Qed.

(** Every chunk that [calculate_chunk_ids] returns has a string
    identifier. *)
Lemma calculate_chunk_ids_have_ids chunks c :
  c ∈ calculate_chunk_ids chunks → get_id c = Some (VStr (id_string c)).
Proof.
  unfold calculate_chunk_ids. generalize (@None string) 0.
  induction chunks as [|d rest IH]; intros last n Hc; simpl in Hc.
  - by apply elem_of_nil in Hc.
  - apply elem_of_cons in Hc as [->|Hc]; [|by eapply IH].
    unfold id_string, get_id, set_metadata. simpl.
    by rewrite lookup_insert_eq.
Qed.

Lemma length_calculate_chunk_ids chunks :
  length (calculate_chunk_ids chunks) = length chunks.
Proof.
  unfold calculate_chunk_ids. generalize (@None string) 0.
  induction chunks as [|d rest IH]; intros last n; [done|].
  simpl. by rewrite IH.
Qed.

Lemma calculate_chunk_ids_source chunks c :
  c ∈ calculate_chunk_ids chunks →
  ∃ c0, c0 ∈ chunks
        ∧ metadata c !! METADATA_SOURCE_KEY
          = metadata c0 !! METADATA_SOURCE_KEY.
Proof.
  unfold calculate_chunk_ids. generalize (@None string) 0.
  induction chunks as [|d rest IH]; intros last n Hc; simpl in Hc.
  - by apply elem_of_nil in Hc.
  - apply elem_of_cons in Hc as [->|Hc].
    + exists d. split; [by left|]. unfold set_metadata. simpl.
      by rewrite lookup_insert_ne.
    + destruct (IH _ _ Hc) as (c0 & ? & ?). exists c0.
      split; [by right | done].
Qed.

Lemma same_page_adjacent_tail (a : string) l :
  same_page_adjacent (a :: l) → same_page_adjacent l.
Proof.
  intros H i j k pid Hlt Hi Hk.
  apply (H (S i) (S j) (S k) pid); [lia | done | done].
Qed.


Lemma next_chunk_index_same a n : next_chunk_index (Some a) n a = S n.
Proof. unfold next_chunk_index. by rewrite decide_True. Qed.

Lemma next_chunk_index_other last n x :
  last ≠ Some x → next_chunk_index last n x = 0.
Proof. intros. unfold next_chunk_index. by rewrite decide_False. Qed.

(** From a state whose last page id is [a], with the chunks of a page
    adjacent: the (page id, counter) pairs are distinct, and every later
    chunk of page [a] gets a counter above the current one. *)
Lemma chunk_indices_from_distinct a n l :
  same_page_adjacent (a :: l) →
  NoDup (zip l (chunk_indices_from (Some a) n l))
  ∧ ∀ i, (a, i) ∈ zip l (chunk_indices_from (Some a) n l) → n < i.
Proof.
  revert a n. induction l as [|x t IH]; intros a n Hadj.
  { split; [constructor | by intros i Hi; apply elem_of_nil in Hi]. }
  simpl.
  pose proof (same_page_adjacent_tail _ _ Hadj) as Hadj'.
  destruct (decide (a = x)) as [->|Hne].
  - rewrite next_chunk_index_same.
    destruct (IH x (S n) Hadj') as [Hnd Hgt]. split.
    + constructor; [|done]. intros Hin. apply Hgt in Hin. lia.
    + intros i [Hi|Hi]%elem_of_cons; [simplify_eq; lia|].
      apply Hgt in Hi. lia.
  - rewrite next_chunk_index_other by congruence.
    destruct (IH x 0 Hadj') as [Hnd Hgt]. split.
    + constructor; [|done]. intros Hin. apply Hgt in Hin. lia.
    + intros i [Hi|Hi]%elem_of_cons; [by simplify_eq|].
      apply list_elem_of_lookup in Hi as [k Hk].
      apply lookup_zip_with_Some in Hk as (p & q & Hpq & Hp & Hq).
      simplify_eq.
      assert ((p :: x :: t) !! 1 = Some p) as H1.
      { apply (Hadj 0 1 (S (S k)) p); [lia | done | done]. }
      simpl in H1. by simplify_eq.
Qed.

Lemma chunk_indices_from_step last n pids i p q m :
  pids !! i = Some p → pids !! S i = Some q →
  chunk_indices_from last n pids !! i = Some m →
  chunk_indices_from last n pids !! S i
  = Some (if decide (q = p) then S m else 0).
Proof.
  revert last n i. induction pids as [|x t IH]; intros last n i; [done|].
  destruct i as [|i]; simpl.
  - intros ? Hq ?. simplify_eq. destruct t as [|y t]; simplify_eq/=.
    f_equal. unfold next_chunk_index at 1.
    destruct (decide (q = p)) as [->|?].
    + by rewrite decide_True.
    + rewrite decide_False; [done | congruence].
  - intros Hp Hq Hm. by apply IH.
Qed.

(** C4. The counter of [calculate_chunk_ids] starts at 0, goes up by one
    when a chunk has the page id of the chunk before it, and goes back to 0
    when the page id changes; the identifier of a chunk is its page id with
    this counter.  So chunks with page ids [a; a; b; a] get the counters
    [0; 1; 0; 0]: the counter does not accumulate across occurrences of a
    page id that are not adjacent. *)
Theorem counter_reset_law :
  (∀ chunks,
     get_id <$> calculate_chunk_ids chunks
     = zip_with (λ c n, Some (VStr (chunk_id_of (current_page_id c) n)))
         chunks (chunk_indices chunks))
  ∧ (∀ c rest, chunk_indices (c :: rest) !! 0 = Some 0)
  ∧ (∀ chunks i c c' n,
       chunks !! i = Some c → chunks !! S i = Some c' →
       chunk_indices chunks !! i = Some n →
       chunk_indices chunks !! S i
       = Some (if decide (current_page_id c' = current_page_id c)
               then S n else 0))
  ∧ (∀ c1 c2 c3 c4 a b,
       a ≠ b →
       current_page_id c1 = a → current_page_id c2 = a →
       current_page_id c3 = b → current_page_id c4 = a →
       chunk_indices [c1; c2; c3; c4] = [0; 1; 0; 0]
       ∧ get_id <$> calculate_chunk_ids [c1; c2; c3; c4]
         = [Some (VStr (chunk_id_of a 0)); Some (VStr (chunk_id_of a 1));
            Some (VStr (chunk_id_of b 0)); Some (VStr (chunk_id_of a 0))]).
Proof.
  assert (∀ chunks,
     get_id <$> calculate_chunk_ids chunks
     = zip_with (λ c n, Some (VStr (chunk_id_of (current_page_id c) n)))
         chunks (chunk_indices chunks)) as Hids.
  { intros chunks. unfold calculate_chunk_ids, chunk_indices.
    rewrite get_id_calculate_from.
    generalize (chunk_indices_from None 0 (current_page_id <$> chunks)).
    induction chunks as [|c rest IH]; intros [|n ns]; simpl; try done.
    by rewrite IH. }
  split; [exact Hids|]. split; [done|]. split.
  - intros chunks i c c' n Hc Hc' Hn. unfold chunk_indices in *.
    eapply chunk_indices_from_step; [| |exact Hn].
    + by rewrite list_lookup_fmap, Hc.
    + by rewrite list_lookup_fmap, Hc'.
  - intros c1 c2 c3 c4 a b Hab H1 H2 H3 H4.
    assert (chunk_indices [c1; c2; c3; c4] = [0; 1; 0; 0]) as Hidx.
    { unfold chunk_indices. simpl. rewrite H1, H2, H3, H4.
      rewrite (next_chunk_index_other None) by done.
      rewrite next_chunk_index_same.
      rewrite (next_chunk_index_other (Some a) 1 b) by congruence.
      by rewrite (next_chunk_index_other (Some b) 0 a) by congruence. }
    split; [exact Hidx|].
    rewrite Hids, Hidx. simpl. by rewrite H1, H2, H3, H4.
Qed.

Lemma pretty_Z_no_colon (z : Z) : no_colon (pretty z).
Proof.
  destruct z as [|p|p]; unfold pretty, pretty_Z.
  - simpl. by split.
  - unfold pretty, pretty_positive, pretty, pretty_N.
    rewrite decide_False by done. by apply pretty_N_go_no_colon.
  - unfold pretty, pretty_positive, pretty, pretty_N.
    rewrite decide_False by done. rewrite append_cons, append_nil.
    split; [done|]. by apply pretty_N_go_no_colon.
Qed.

(** For a string source and an integer page, the page id determines the
    (source, page) pair. *)
Lemma current_page_id_inj c1 c2 :
  typed_chunk c1 → typed_chunk c2 →
  current_page_id c1 = current_page_id c2 → page_key c1 = page_key c2.
Proof.
  intros [[s1 Hs1] [z1 Hz1]] [[s2 Hs2] [z2 Hz2]].
  unfold current_page_id, page_key. rewrite Hs1, Hz1, Hs2, Hz2. simpl.
  intros Heq.
  change (s1 +:+ String ":" (pretty z1) = s2 +:+ String ":" (pretty z2))
    in Heq.
  apply app_colon_inj in Heq as [-> Hz]; auto using pretty_Z_no_colon.
  by apply (inj pretty) in Hz as ->.
Qed.

Lemma ids_unique_of_adjacent_page_ids (chunks : list Document) :
  same_page_adjacent (current_page_id <$> chunks) →
  NoDup (get_id <$> calculate_chunk_ids chunks).
Proof.
  intros Hadj. unfold calculate_chunk_ids. rewrite get_id_calculate_from.
  apply NoDup_fmap_2.
  { intros [p i] [q j] Heq. simplify_eq/=.
    by apply chunk_id_of_inj in Heq as [-> ->]. }
  destruct (current_page_id <$> chunks) as [|x t]; [constructor|].
  simpl. rewrite next_chunk_index_other by done.
  destruct (chunk_indices_from_distinct x 0 t Hadj) as [Hnd Hgt].
  constructor; [|done]. intros Hin. apply Hgt in Hin. lia.
Qed.

(** C3. In a batch whose chunks come in their per-document, per-page
    sequence, so that the chunks sharing a page key are adjacent,
    [calculate_chunk_ids] gives every chunk an identifier and no two chunks
    the same one.  This holds with the key taken as the string
    [f"{source}:{page}"] that the loop compares, and, for chunks whose
    source is a string and whose page is an integer, with the key taken as
    the (source, page) pair. *)
Theorem chunk_ids_unique_in_batch (chunks : list Document) :
  (same_page_adjacent (current_page_id <$> chunks) →
   NoDup (get_id <$> calculate_chunk_ids chunks)
   ∧ Forall (λ c, is_Some (get_id c)) (calculate_chunk_ids chunks))
  ∧ (Forall typed_chunk chunks →
     same_page_adjacent (page_key <$> chunks) →
     NoDup (get_id <$> calculate_chunk_ids chunks)
     ∧ Forall (λ c, is_Some (get_id c)) (calculate_chunk_ids chunks)).
Proof.
  assert (Forall (λ c, is_Some (get_id c)) (calculate_chunk_ids chunks))
    as Hids.
  { apply Forall_forall. intros c Hc.
    apply calculate_chunk_ids_have_ids in Hc. by eexists. }
  split.
  - intros Hadj. split; [by apply ids_unique_of_adjacent_page_ids | done].
  - intros Htyped Hadj. split; [|done].
    apply ids_unique_of_adjacent_page_ids.
    intros i j k pid Hlt Hi Hk.
    apply list_lookup_fmap_Some in Hi as (ci & Hpi & Hci).
    apply list_lookup_fmap_Some in Hk as (ck & Hpk & Hck).
    destruct (lookup_lt_is_Some_2 chunks j) as [cj Hcj].
    { apply lookup_lt_Some in Hck. lia. }
    pose proof (Forall_lookup_1 _ _ _ _ Htyped Hci) as Hti.
    pose proof (Forall_lookup_1 _ _ _ _ Htyped Hck) as Htk.
    assert (page_key ci = page_key ck) as Hkey.
    { apply current_page_id_inj; [done | done | congruence]. }
    assert ((page_key <$> chunks) !! j = Some (page_key ci)) as Hj.
    { apply (Hadj i j k); [done | |].
      - by rewrite list_lookup_fmap, Hci.
      - by rewrite list_lookup_fmap, Hck, Hkey. }
    rewrite list_lookup_fmap, Hcj in Hj. simpl in Hj.
    rewrite list_lookup_fmap, Hcj. simpl. f_equal.
    assert (page_key cj = page_key ci) as Hji by congruence.
    unfold page_key in Hji.
    assert (chunk_source cj = chunk_source ci) as Hsrc by congruence.
    assert (chunk_page cj = chunk_page ci) as Hpage by congruence.
    subst pid. unfold current_page_id. by rewrite Hsrc, Hpage.
Qed.

(** ** Properties of [add_to_chroma] *)

Lemma upsert_all_dom m rows :
  dom (upsert_all m rows) = dom m ∪ list_to_set rows.*1.
Proof.
  revert m. induction rows as [|[j d] rows IH]; intros m.
  - simpl. by rewrite (right_id_L ∅ (∪)).
  - unfold upsert_all in *. simpl. rewrite IH, dom_insert_L.
    rewrite (comm_L (∪) {[j]} (dom m)). by rewrite (assoc_L (∪)).
Qed.

Lemma upsert_all_lookup_Some m rows i d :
  upsert_all m rows !! i = Some d → (i, d) ∈ rows ∨ m !! i = Some d.
Proof.
  revert m. induction rows as [|[j c] rows IH]; intros m Hi; [by right|].
  unfold upsert_all in *. simpl in Hi. apply IH in Hi as [Hi|Hi].
  - left. by right.
  - destruct (decide (j = i)) as [->|Hne].
    + rewrite lookup_insert_eq in Hi. simplify_eq. left. by left.
    + rewrite lookup_insert_ne in Hi by done. by right.
Qed.

(** Writing rows is writing their last occurrences over the old records. *)
Lemma upsert_all_union m rows :
  upsert_all m rows = list_to_map (reverse rows) ∪ m.
Proof.
  revert m. induction rows as [|[j d] rows IH]; intros m.
  - simpl. by rewrite (left_id_L ∅ (∪)).
  - unfold upsert_all in *. simpl. rewrite IH, reverse_cons.
    rewrite list_to_map_app. simpl.
    rewrite <- (assoc_L (∪)). f_equal.
    rewrite insert_empty. by rewrite <- insert_union_singleton_l.
Qed.

(** Writing the same rows again changes nothing. *)
Lemma upsert_all_twice m rows :
  upsert_all (upsert_all m rows) rows = upsert_all m rows.
Proof.
  rewrite !upsert_all_union. rewrite (assoc_L (∪)).
  by rewrite (idemp_L (∪)).
Qed.

Lemma elem_of_zip_fmap {A B} (f : A → B) (l : list A) b a :
  (b, a) ∈ zip (f <$> l) l → a ∈ l ∧ b = f a.
Proof.
  induction l as [|x l IH]; simpl.
  - by intros ?%elem_of_nil.
  - intros [?|Hin]%elem_of_cons.
    + simplify_eq. split; [by left | done].
    + destruct (IH Hin). split; [by right | done].
Qed.

Lemma for_each_ok {A B} (f : A → result B) l r :
  for_each f l = Ok r → Forall2 (λ a b, f a = Ok b) l r.
Proof.
  revert r. induction l as [|a l IH]; intros r Hr; simpl in Hr.
  - simplify_eq. constructor.
  - destruct (f a) as [b|e] eqn:Hb; [|done].
    destruct (for_each f l) as [bs|e] eqn:Hbs; [|done].
    cbn [mbind result_bind] in Hr. simplify_eq.
    constructor; [done | by apply IH].
Qed.

Lemma add_all_store batches m :
  add_all batches (Store m)
  = Ok (Store (upsert_all m (concat ((λ b, zip b.2 b.1) <$> batches)))).
Proof.
  revert m. induction batches as [|[cs ids] rest IH]; intros m; [done|].
  simpl. rewrite IH. unfold upsert_all. by rewrite foldl_app.
Qed.

(** The read of the identifiers names ["ids"] in its [include] list: it
    raises on every store, and the set of existing identifiers is empty. *)
Lemma existing_ids_of_empty db : existing_ids_of db = ∅.
Proof. by destruct db. Qed.

(** So no candidate is filtered out. *)
Lemma new_chunks_of_all chunks_with_ids db :
  new_chunks_of chunks_with_ids db = chunks_with_ids.
Proof.
  unfold new_chunks_of. rewrite existing_ids_of_empty.
  induction chunks_with_ids as [|c rest IH]; [done|].
  rewrite filter_cons, IH, decide_True; [done|].
  unfold id_is_new. destruct (get_id c) as [[i|z]|]; [|done..].
  apply not_elem_of_empty.
Qed.

(** The slices of a range with a positive step cover the list, in order. *)
Lemma slices_cover {A} (s k : nat) (l : list A) :
  length l ≤ k * s →
  concat ((λ i, slice l i s) <$> ((λ j, j * s) <$> seq 0 k)) = l.
Proof.
  revert l. induction k as [|k IH]; intros l Hlen.
  - destruct l; [done | simpl in Hlen; lia].
  - simpl. rewrite <- fmap_S_seq, <- !list_fmap_compose.
    unfold slice at 1. rewrite drop_0. simpl.
    transitivity (take s l ++ drop s l); [|apply take_drop]. f_equal.
    etransitivity; [|apply (IH (drop s l)); rewrite length_drop; lia].
    rewrite <- list_fmap_compose.
    f_equal. apply list_fmap_ext. intros _ j _. simpl.
    unfold slice. rewrite drop_drop. do 2 f_equal; lia.
Qed.

Lemma range_covers (n s : nat) : 0 < s → n ≤ (n + s - 1) `div` s * s.
Proof.
  intros Hs.
  pose proof (Nat.div_mod_eq (n + s - 1) s) as Hdm.
  pose proof (Nat.mod_upper_bound (n + s - 1) s ltac:(lia)) as Hlt.
  nia.
Qed.

Lemma py_range_positive (n : nat) (step : Z) :
  (0 < step)%Z →
  py_range n step
  = Ok ((λ k, k * Z.to_nat step)
        <$> seq 0 ((n + Z.to_nat step - 1) `div` Z.to_nat step)).
Proof.
  intros Hs. unfold py_range.
  rewrite decide_False by lia. by rewrite decide_False by lia.
Qed.

Lemma for_each_metadata_id (l : list Document) :
  Forall (λ c, is_Some (get_id c)) l →
  for_each metadata_id l = Ok (id_string <$> l).
Proof.
  induction 1 as [|c l [v Hv] _ IH]; [done|].
  assert (metadata_id c = Ok (id_string c)) as Hc.
  { unfold metadata_id, id_string. by rewrite Hv. }
  simpl. rewrite Hc. simpl. by rewrite IH.
Qed.

Lemma slices_zip {A B} (l : list A) (k : list B) (starts : list nat) s :
  concat ((λ i, zip (slice l i s) (slice k i s)) <$> starts)
  = concat ((λ i, slice (zip l k) i s) <$> starts).
Proof.
  f_equal. apply list_fmap_ext. intros _ i _. unfold slice.
  by rewrite zip_with_drop, zip_with_take.
Qed.

Lemma add_batches_positive new_chunks batch_size :
  (0 < batch_size)%Z →
  add_batches new_chunks (id_string <$> new_chunks) batch_size
  = Ok (batches_of new_chunks batch_size).
Proof.
  intros Hbs. unfold add_batches. by rewrite py_range_positive by done.
Qed.

Lemma batches_of_rows new_chunks batch_size :
  (0 < batch_size)%Z →
  concat ((λ b, zip b.2 b.1) <$> batches_of new_chunks batch_size)
  = zip (id_string <$> new_chunks) new_chunks.
Proof.
  intros Hbs. unfold batches_of. rewrite <- list_fmap_compose.
  etransitivity;
    [exact (slices_zip (id_string <$> new_chunks) new_chunks _ _)|].
  apply slices_cover.
  rewrite length_zip_with, length_fmap, Nat.min_id.
  apply range_covers. lia.
Qed.

(** What [add_to_chroma] returns on a working store, once the sources
    have been normalised: every chunk is written, and counted. *)
Lemma add_to_chroma_store chunks normalized batch_size m :
  (0 < batch_size)%Z →
  for_each normalize_chunk chunks = Ok normalized →
  let candidates := calculate_chunk_ids normalized in
  add_to_chroma chunks batch_size (Store m)
  = Ok (length chunks,
        Store (upsert_all m (zip (id_string <$> candidates) candidates))).
Proof.
  intros Hbs Hnorm candidates. unfold add_to_chroma.
  destruct chunks as [|c0 chunks0].
  { simpl in Hnorm. simplify_eq. done. }
  rewrite Hnorm. cbn [mbind result_bind].
  rewrite new_chunks_of_all. fold candidates.
  assert (length candidates = length (c0 :: chunks0)) as Hlen.
  { unfold candidates. rewrite length_calculate_chunk_ids.
    symmetry. by eapply Forall2_length, for_each_ok. }
  destruct candidates as [|c1 cands1] eqn:Hcands; [done|].
  rewrite <- Hcands in *. clear Hcands.
  assert (Forall (λ c, is_Some (get_id c)) candidates) as Hids.
  { apply Forall_forall. intros c Hc.
    apply calculate_chunk_ids_have_ids in Hc. by eexists. }
  rewrite (for_each_metadata_id _ Hids). cbn [mbind result_bind].
  rewrite add_batches_positive by done. cbn [mbind result_bind].
  rewrite add_all_store. cbn [mbind result_bind].
  by rewrite batches_of_rows, Hlen.
Qed.

Lemma add_to_chroma_normalized chunks batch_size db r :
  add_to_chroma chunks batch_size db = Ok r →
  ∃ normalized, for_each normalize_chunk chunks = Ok normalized.
Proof.
  unfold add_to_chroma. destruct chunks as [|c rest]; [by eexists|].
  destruct (for_each normalize_chunk (c :: rest)) as [normalized|e];
    [by eexists | done].
Qed.

Lemma normalize_chunk_path c c' :
  normalize_chunk c = Ok c' → source_is_path (metadata c').
Proof.
  unfold normalize_chunk, source_is_path.
  destruct (truthy (metadata c !! METADATA_SOURCE_KEY)) eqn:Htruthy.
  - destruct (normalize_source_path (metadata c !! METADATA_SOURCE_KEY))
      as [n|e]; [|done].
    cbn [mbind result_bind]. intros [= <-]. unfold set_metadata. simpl.
    by rewrite lookup_insert_eq.
  - intros [= <-].
    destruct (metadata c !! METADATA_SOURCE_KEY) as [[s|z]|]; try done.
    simpl in Htruthy. apply negb_false_iff in Htruthy.
    by apply Z.eqb_eq in Htruthy.
Qed.

(** The records that [add_to_chroma] writes have a source that is absent,
    false or a string: a store filled by [add_to_chroma] keeps this
    property. *)
Lemma add_to_chroma_keeps_paths chunks batch_size m n m' :
  (0 < batch_size)%Z →
  (∀ i d, m !! i = Some d → source_is_path (metadata d)) →
  add_to_chroma chunks batch_size (Store m) = Ok (n, Store m') →
  ∀ i d, m' !! i = Some d → source_is_path (metadata d).
Proof.
  intros Hbs Hm Hadd i d Hd.
  destruct (for_each normalize_chunk chunks) as [normalized|e] eqn:Hnorm.
  2:{ unfold add_to_chroma in Hadd. rewrite Hnorm in Hadd.
      destruct chunks; [|done]. simpl in Hnorm. done. }
  rewrite (add_to_chroma_store _ _ _ _ Hbs Hnorm) in Hadd.
  injection Hadd as _ <-.
  apply upsert_all_lookup_Some in Hd as [Hd|Hd]; [|by eauto].
  apply elem_of_zip_fmap in Hd as [Hd _].
  destruct (calculate_chunk_ids_source _ _ Hd) as (c0 & Hc0 & Heq).
  unfold source_is_path. rewrite Heq.
  apply for_each_ok in Hnorm.
  apply list_elem_of_lookup in Hc0 as [k Hk].
  destruct (Forall2_lookup_r _ _ _ k c0 Hnorm Hk) as (c & _ & Hc).
  by apply normalize_chunk_path in Hc.
Qed.

(** ** Properties of the scans of the store *)

(** The scans of [delete_from_chroma_by_source] and of
    [list_sources_in_chroma] name ["ids"] in the [include] list of [db.get]:
    the call raises on every store, before a record is read. *)
Lemma db_get_with_ids_raises db :
  db_get ["metadatas"; "ids"] db = Raise ValueError.
Proof. by destruct db. Qed.

Lemma delete_try_raises normalized db :
  delete_try normalized db = Raise ValueError.
Proof. unfold delete_try. by rewrite db_get_with_ids_raises. Qed.

(** The [except Exception] of [delete_from_chroma_by_source] then returns
    0: no record is removed. *)
Lemma delete_removes_nothing source_path db :
  delete_from_chroma_by_source source_path db = (0, db).
Proof.
  unfold delete_from_chroma_by_source. by rewrite delete_try_raises.
Qed.

(** And the [except Exception] of [list_sources_in_chroma] returns the
    empty mapping. *)
Lemma list_sources_empty db : list_sources_in_chroma db = ∅.
Proof.
  unfold list_sources_in_chroma. by rewrite db_get_with_ids_raises.
Qed.


(** C6. [delete_from_chroma_by_source] returns the number of records it
    removed, and removes nothing else: the records left are records that
    were there.  When no record of the store is selected by the normalised
    path it returns 0 and the store is the one it was given.  On a store
    whose calls raise, and on an empty store, it returns 0 and does not
    raise.  (The read of the store raises on every store, so the number
    returned is 0 and no record is removed.) *)
Theorem delete_returns_removed_count source_path db :
  let r := delete_from_chroma_by_source source_path db in
  record_count db = record_count r.2 + r.1
  ∧ (∀ m, db = Store m → ∃ m', r.2 = Store m' ∧ m' ⊆ m)
  ∧ ((∀ m i d, db = Store m → m !! i = Some d →
        ¬ selected (resolve source_path)
            (is_dir (fs (resolve source_path))) (metadata d)) →
     r = (0, db))
  ∧ delete_from_chroma_by_source source_path Broken = (0, Broken)
  ∧ delete_from_chroma_by_source source_path (Store ∅) = (0, Store ∅).
Proof.
  intros r. subst r. rewrite !delete_removes_nothing. simpl.
  split; [lia|]. split.
  - intros m ->. by exists m.
  - by repeat split.
Qed.

(** C10. A record whose source is absent or false is never deleted by
    [delete_from_chroma_by_source], whatever the path, and is never counted
    by [list_sources_in_chroma]: the listing is the listing of the store
    without this record. *)
Theorem falsy_source_records_invisible m i d :
  m !! i = Some d →
  truthy (metadata d !! METADATA_SOURCE_KEY) = false →
  (∀ source_path,
     ∃ m', (delete_from_chroma_by_source source_path (Store m)).2 = Store m'
           ∧ m' !! i = Some d)
  ∧ list_sources_in_chroma (Store m)
    = list_sources_in_chroma (Store (delete i m))
  ∧ (∀ n, ¬ counted_under n (metadata d)).
Proof.
  intros Hd Hfalsy. split; [|split].
  - intros source_path. rewrite delete_removes_nothing. by exists m.
  - by rewrite !list_sources_empty.
  - intros n [Htrue _]. by rewrite Hfalsy in Htrue.
Qed.

(** ** Properties of [index_path] *)


(** ** Properties of [clear_chroma] and [auto_reset_chroma] *)



Lemma locked_files_without_marker es :
  existsb (λ e, is_marker e && locked e) es = false →
  existsb (λ e, is_marker e && locked e)
    (filter (λ e, locked e = true) es) = false
  ∧ filter (λ e, is_marker e = false) (filter (λ e, locked e = true) es)
    = filter (λ e, locked e = true) es.
Proof.
  induction es as [|e es IH]; [done|]. simpl.
  intros [He Hes]%orb_false_elim. destruct (IH Hes) as [IH1 IH2].
  rewrite filter_cons. destruct (decide (locked e = true)) as [Hl|Hl].
  - rewrite Hl, andb_true_r in He. simpl. rewrite He. simpl.
    rewrite filter_cons, decide_True by done. by rewrite IH2.
  - done.
Qed.

Lemma filter_locked_none es :
  Forall (λ e, locked e = false) es →
  filter (λ e, locked e = true) es = [].
Proof.
  induction 1 as [|e es' He _ IH]; [done|].
  rewrite filter_cons, decide_False; [done|]. by rewrite He.
Qed.

(** C9. When [clear_chroma] cannot remove the store directory because a
    file in it is locked, and the marker file can be written, it does not
    raise: it returns with the reset marker present and with the files from
    the locked one on still in the directory.  At the start of the next run
    of the script, [auto_reset_chroma] finds the marker, removes every file
    that can be removed, clears the marker and leaves the store directory
    in place: only files that are still locked survive, so the directory is
    empty when none is.  This happens before the handler of any user action
    runs. *)
Theorem clear_defers_reset_to_startup :
  (∀ db es,
     remove_until_locked es ≠ [] →
     existsb (λ e, is_marker e && locked e) (remove_until_locked es)
       = false →
     ∃ es',
       clear_chroma (db, Some es) = Ok (clear_records db, Some es')
       ∧ marker_exists (Some es') = true
       ∧ remove_until_locked es ⊆ es')
  ∧ (∀ es,
       marker_exists (Some es) = true →
       existsb (λ e, is_marker e && locked e) es = false →
       auto_reset_chroma (Some es)
         = Ok (Some (filter (λ e, locked e = true) es))
       ∧ marker_exists (Some (filter (λ e, locked e = true) es)) = false
       ∧ (Forall (λ e, locked e = false) es →
          auto_reset_chroma (Some es) = Ok (Some [])))
  ∧ (∀ A (handler : chroma * chroma_dir → result A) db es,
       marker_exists (Some es) = true →
       existsb (λ e, is_marker e && locked e) es = false →
       run_script handler (db, Some es)
       = handler (db, Some (filter (λ e, locked e = true) es))).
Proof.
  assert (∀ es,
       marker_exists (Some es) = true →
       existsb (λ e, is_marker e && locked e) es = false →
       auto_reset_chroma (Some es)
         = Ok (Some (filter (λ e, locked e = true) es))) as Hreset.
  { intros es Hmark Hfree. unfold auto_reset_chroma. rewrite Hmark.
    destruct (locked_files_without_marker es Hfree) as [Hl1 Hl2].
    unfold rmtree_ignore_errors.
    destruct (filter (λ e, locked e = true) es) as [|e0 rest] eqn:Hlocked;
      [done|].
    unfold unlink_marker. rewrite Hl1. cbn [mbind result_bind mkdir].
    by rewrite Hl2. }
  split; [|split].
  - intros db es Hstuck Hfree. unfold clear_chroma, remove_or_mark. simpl.
    destruct (remove_until_locked es) as [|e0 rest] eqn:Hleft; [done|].
    unfold write_marker. rewrite Hfree.
    destruct (existsb is_marker (e0 :: rest)) eqn:Hmark;
      cbn [mbind result_bind mkdir].
    + eexists. split; [done|]. by split.
    + eexists. split; [done|]. split.
      * simpl. rewrite existsb_app. simpl.
        by rewrite !orb_true_r.
      * intros e He. apply elem_of_app. by left.
  - intros es Hmark Hfree. split; [by apply Hreset|]. split.
    + simpl. apply not_true_is_false. intros Hex.
      apply existsb_exists in Hex as (e & Hin & He).
      apply list_elem_of_In, list_elem_of_filter in Hin as [Hl Hin].
      assert (existsb (λ e, is_marker e && locked e) es = true) as Hbad.
      { apply existsb_exists. exists e. split.
        - by apply list_elem_of_In.
        - by rewrite He, Hl. }
      by rewrite Hfree in Hbad.
    + intros Hnone. rewrite Hreset by done.
      by rewrite filter_locked_none.
  - intros A handler db es Hmark Hfree. unfold run_script. simpl.
    by rewrite Hreset.
Qed.

(** ** Indexing the same path twice *)

Lemma elem_of_concat {A} (x : A) (ls : list (list A)) :
  x ∈ concat ls → ∃ l, x ∈ l ∧ l ∈ ls.
Proof.
  induction ls as [|l ls IH]; simpl.
  - by intros ?%elem_of_nil.
  - intros [Hx|Hx]%elem_of_app.
    + exists l. split; [done | by left].
    + destruct (IH Hx) as (l' & ? & ?). exists l'. split; [done | by right].
Qed.

(** What a call of [index_path] that returns has done, on an existing
    path with documents: the deletion has removed nothing, and every chunk
    has been written under its identifier and counted. *)
Lemma index_path_store path m r db1 docs :
  is_Some (fs (resolve path)) →
  load_docs_for_path (resolve path) = Ok docs → docs ≠ [] →
  index_path path (Store m) = Ok (r, db1) →
  ∃ normalized,
    for_each normalize_chunk (split_documents docs) = Ok normalized
    ∧ r = (length docs, length (split_documents docs))
    ∧ db1 = Store (upsert_all m
                     (zip (id_string <$> calculate_chunk_ids normalized)
                          (calculate_chunk_ids normalized))).
Proof.
  intros Hex Hload Hdocs. unfold index_path, resolve_path.
  destruct (resolve_error path) as [e|]; [done|]. cbn [mbind result_bind].
  rewrite bool_decide_eq_true_2 by done. simpl.
  rewrite ?delete_removes_nothing, Hload. cbn [mbind result_bind].
  destruct docs as [|d0 docs0]; [done|].
  destruct (add_to_chroma (split_documents (d0 :: docs0)) 2000 (Store m))
    as [[n db']|e] eqn:Hadd; [|done].
  cbn [mbind result_bind fst snd]. intros [= <- <-].
  destruct (add_to_chroma_normalized _ _ _ _ Hadd) as [normalized Hnorm].
  rewrite (add_to_chroma_store _ _ 2000 _ ltac:(lia) Hnorm) in Hadd.
  injection Hadd as <- <-. by exists normalized.
Qed.

(** C1, amended. When a path has been indexed, indexing it again with
    unchanged content returns the same pair as the first call,
    [(len(D), N)] with [N] the number of chunks, and leaves the store
    exactly as the first call left it: every chunk is written again under
    the identifier it had, so no record is duplicated and the number of
    records is unchanged. *)
Theorem index_path_twice_same path m r db1 :
  index_path path (Store m) = Ok (r, db1) →
  index_path path db1 = Ok (r, db1)
  ∧ record_count (match index_path path db1 with
                  | Ok (_, db2) => db2
                  | Raise _ => db1
                  end) = record_count db1
  ∧ (is_Some (fs (resolve path)) →
     ∃ docs, load_docs_for_path (resolve path) = Ok docs
             ∧ r.1 = length docs
             ∧ r.2 = match docs with
                     | [] => 0
                     | _ => length (split_documents docs)
                     end).
Proof.
  intros Hfirst.
  cut (index_path path db1 = Ok (r, db1)
       ∧ (is_Some (fs (resolve path)) →
          ∃ docs, load_docs_for_path (resolve path) = Ok docs
                  ∧ r.1 = length docs
                  ∧ r.2 = match docs with
                          | [] => 0
                          | _ => length (split_documents docs)
                          end)).
  { intros [-> ?]. by repeat split. }
  destruct (decide (is_Some (fs (resolve path)))) as [Hex|Hex].
  2:{ revert Hfirst. unfold index_path, resolve_path.
      destruct (resolve_error path) as [e|]; [done|].
      cbn [mbind result_bind].
      rewrite bool_decide_eq_false_2 by done. simpl. intros ?.
      by simplify_eq. }
  destruct (load_docs_for_path (resolve path)) as [docs|e] eqn:Hload.
  2:{ revert Hfirst. unfold index_path, resolve_path.
      destruct (resolve_error path) as [e'|]; [done|].
      cbn [mbind result_bind].
      rewrite bool_decide_eq_true_2 by done. simpl.
      by rewrite ?delete_removes_nothing, Hload. }
  destruct (decide (docs = [])) as [->|Hdocs].
  { revert Hfirst. unfold index_path, resolve_path.
    destruct (resolve_error path) as [e'|]; [done|].
    cbn [mbind result_bind].
    rewrite bool_decide_eq_true_2 by done. simpl.
    rewrite ?delete_removes_nothing, Hload. cbn [mbind result_bind].
    intros [= <- <-]. split; [done|]. intros _. by exists []. }
  destruct (index_path_store _ _ _ _ _ Hex Hload Hdocs Hfirst)
    as (normalized & Hnorm & -> & ->).
  split.
  - revert Hfirst. unfold index_path, resolve_path.
    destruct (resolve_error path) as [e'|]; [done|].
    cbn [mbind result_bind].
    rewrite bool_decide_eq_true_2 by done. simpl.
    rewrite ?delete_removes_nothing, Hload. cbn [mbind result_bind].
    destruct docs as [|d0 docs0]; [done|]. intros _.
    rewrite (add_to_chroma_store _ _ 2000 _ ltac:(lia) Hnorm).
    cbn [mbind result_bind fst snd]. by rewrite upsert_all_twice.
  - intros _. exists docs. split; [done|]. split; [done|].
    by destruct docs.
Qed.

(** Indexing never purges: a call of [index_path] that returns leaves
    every identifier that was in the store in it, whatever the path now
    holds, and a deletion of the path right after it removes nothing. *)
Theorem index_path_never_purges path m r db1 :
  index_path path (Store m) = Ok (r, db1) →
  ∃ m1,
    db1 = Store m1
    ∧ dom m ⊆ dom m1
    ∧ size m ≤ size m1
    ∧ delete_from_chroma_by_source (resolve path) db1 = (0, db1).
Proof.
  intros Hfirst.
  cut (∃ m1, db1 = Store m1 ∧ dom m ⊆ dom m1).
  { intros (m1 & -> & Hdom). exists m1. split; [done|]. split; [done|].
    split; [|apply delete_removes_nothing].
    rewrite <- !size_dom. by apply subseteq_size. }
  revert Hfirst. unfold index_path, resolve_path.
  destruct (resolve_error path) as [e|]; [done|]. cbn [mbind result_bind].
  destruct (bool_decide (is_Some (fs (resolve path)))); simpl.
  2:{ intros [= <- <-]. by exists m. }
  rewrite ?delete_removes_nothing.
  destruct (load_docs_for_path (resolve path)) as [docs|e]; [|done].
  cbn [mbind result_bind].
  destruct docs as [|d0 docs0]; [intros [= <- <-]; by exists m|].
  destruct (add_to_chroma (split_documents (d0 :: docs0)) 2000 (Store m))
    as [[n db']|e] eqn:Hadd; [|done].
  cbn [mbind result_bind fst snd]. intros [= <- <-].
  destruct (add_to_chroma_normalized _ _ _ _ Hadd) as [normalized Hnorm].
  rewrite (add_to_chroma_store _ _ 2000 _ ltac:(lia) Hnorm) in Hadd.
  injection Hadd as <- <-. eexists. split; [done|].
  rewrite upsert_all_dom. apply union_subseteq_l.
Qed.

(** ** More on the identifier assignment *)

Lemma current_page_id_set_id v c :
  current_page_id (set_metadata "id" v c) = current_page_id c.
Proof.
  unfold current_page_id, chunk_source, chunk_page, set_metadata. simpl.
  by rewrite !lookup_insert_ne by done.
Qed.

Lemma calculate_chunk_ids_from_keeps last n chunks :
  Forall2 (λ c c',
      page_content c' = page_content c
      ∧ current_page_id c' = current_page_id c
      ∧ ∀ k, k ≠ "id" → metadata c' !! k = metadata c !! k)
    chunks (calculate_chunk_ids_from last n chunks).
Proof.
  revert last n. induction chunks as [|c rest IH]; intros last n; simpl.
  - constructor.
  - constructor; [|apply IH].
    split; [done|]. split; [apply current_page_id_set_id|].
    intros k Hk. unfold set_metadata. simpl. by rewrite lookup_insert_ne.
Qed.

(** [calculate_chunk_ids] returns the chunks it was given, in the same
    order and number, with the same text and the same metadata except for
    the key ["id"]: only the identifier is written. *)
Theorem calculate_chunk_ids_only_writes_id chunks :
  length (calculate_chunk_ids chunks) = length chunks
  ∧ Forall2 (λ c c',
        page_content c' = page_content c
        ∧ current_page_id c' = current_page_id c
        ∧ ∀ k, k ≠ "id" → metadata c' !! k = metadata c !! k)
      chunks (calculate_chunk_ids chunks).
Proof.
  pose proof (calculate_chunk_ids_from_keeps None 0 chunks) as Hkeeps.
  split; [|exact Hkeeps].
  symmetry. by eapply Forall2_length.
Qed.

(** Assigning identifiers to chunks that already have them changes
    nothing: the page id does not depend on the key ["id"], so a second
    pass computes the same identifiers. *)
Theorem calculate_chunk_ids_idempotent chunks :
  calculate_chunk_ids (calculate_chunk_ids chunks)
  = calculate_chunk_ids chunks.
Proof.
  unfold calculate_chunk_ids. generalize (@None string) 0.
  induction chunks as [|c rest IH]; intros last n; [done|].
  simpl. rewrite current_page_id_set_id, IH. f_equal.
  unfold set_metadata. simpl. by rewrite insert_insert_eq.
Qed.

Lemma chunk_indices_from_run a n pids :
  Forall (λ pid, pid = a) pids →
  chunk_indices_from (Some a) n pids = seq (S n) (length pids).
Proof.
  intros Hall. revert n. induction Hall as [|pid pids -> _ IH]; intros n.
  - done.
  - simpl. rewrite next_chunk_index_same. by rewrite IH.
Qed.

(** The chunks of a single page (one source and one page value, as for a
    text or CSV file) get the counters 0, 1, 2, ... in order, and the
    identifiers made of the page id and these counters. *)
Theorem single_page_counters chunks a :
  Forall (λ c, current_page_id c = a) chunks →
  chunk_indices chunks = seq 0 (length chunks)
  ∧ get_id <$> calculate_chunk_ids chunks
    = (λ i, Some (VStr (chunk_id_of a i))) <$> seq 0 (length chunks).
Proof.
  intros Hall.
  assert (Forall (λ pid, pid = a) (current_page_id <$> chunks)) as Hpids.
  { by apply Forall_fmap. }
  assert (chunk_indices_from None 0 (current_page_id <$> chunks)
          = seq 0 (length chunks)) as Hidx.
  { destruct chunks as [|c rest]; [done|].
    rewrite fmap_cons in Hpids |- *.
    apply Forall_cons in Hpids as [Hc Hrest].
    cbn [chunk_indices_from]. rewrite next_chunk_index_other by done.
    rewrite Hc, (chunk_indices_from_run a 0 _ Hrest).
    by rewrite length_fmap. }
  split; [exact Hidx|].
  unfold calculate_chunk_ids. rewrite get_id_calculate_from, Hidx.
  clear Hidx. generalize 0.
  induction Hall as [|c rest Hc _ IH]; intros n; [done|].
  simpl. rewrite Hc. f_equal. apply IH.
  by apply Forall_cons in Hpids as [_ ?].
Qed.

Lemma length_chunk_indices_from last n pids :
  length (chunk_indices_from last n pids) = length pids.
Proof.
  revert last n. induction pids as [|x t IH]; intros; simpl; [done|].
  by rewrite IH.
Qed.

Lemma page_starts_at_index chunks j c :
  chunks !! j = Some c → page_starts_at chunks j →
  chunk_indices chunks !! j = Some 0.
Proof.
  unfold chunk_indices. destruct j as [|i].
  - destruct chunks as [|c0 rest]; [done|]. intros _ _. simpl.
    by rewrite next_chunk_index_other.
  - intros _ (p & c' & Hp & Hc' & Hne).
    destruct (lookup_lt_is_Some_2
                (chunk_indices_from None 0 (current_page_id <$> chunks)) i)
      as [m Hm].
    { rewrite length_chunk_indices_from, length_fmap.
      by apply lookup_lt_Some in Hp. }
    rewrite (chunk_indices_from_step None 0 _ i
               (current_page_id p) (current_page_id c') m);
      [|by rewrite list_lookup_fmap, Hp
       |by rewrite list_lookup_fmap, Hc'
       |done].
    by rewrite decide_False by done.
Qed.

(** Without adjacency the identifiers are not unique: two chunks with the
    same page id that each start a run of that page (the chunk before has
    another page id) both get the counter 0 and so the same identifier. *)
Theorem separated_runs_share_an_id chunks j1 j2 c1 c2 :
  j1 ≠ j2 →
  chunks !! j1 = Some c1 → chunks !! j2 = Some c2 →
  current_page_id c1 = current_page_id c2 →
  page_starts_at chunks j1 → page_starts_at chunks j2 →
  (get_id <$> calculate_chunk_ids chunks) !! j1
  = Some (Some (VStr (chunk_id_of (current_page_id c1) 0)))
  ∧ (get_id <$> calculate_chunk_ids chunks) !! j2
    = Some (Some (VStr (chunk_id_of (current_page_id c1) 0)))
  ∧ ¬ NoDup (get_id <$> calculate_chunk_ids chunks).
Proof.
  intros Hne H1 H2 Hpid Hs1 Hs2.
  assert (∀ j c, chunks !! j = Some c → page_starts_at chunks j →
            (get_id <$> calculate_chunk_ids chunks) !! j
            = Some (Some (VStr (chunk_id_of (current_page_id c) 0))))
    as Hid.
  { intros j c Hc Hs. unfold calculate_chunk_ids.
    rewrite get_id_calculate_from, list_lookup_fmap.
    pose proof (page_starts_at_index chunks j c Hc Hs) as Hidx.
    unfold chunk_indices in Hidx.
    rewrite lookup_zip_with, list_lookup_fmap, Hc, Hidx. done. }
  pose proof (Hid j1 c1 H1 Hs1) as Hid1.
  pose proof (Hid j2 c2 H2 Hs2) as Hid2. rewrite <- Hpid in Hid2.
  split; [exact Hid1|]. split; [exact Hid2|].
  intros Hnd. apply Hne. by eapply NoDup_lookup.
Qed.

(** ** More on [add_to_chroma] *)

(** Submitting the same chunks a second time is not recognised: after a
    call that returned, with a positive batch size, the second call returns
    the number of chunks again, not 0.  It writes the same records under the
    same identifiers, so the store is left as it is. *)
Theorem add_to_chroma_again chunks batch_size m n m' :
  (0 < batch_size)%Z →
  add_to_chroma chunks batch_size (Store m) = Ok (n, Store m') →
  n = length chunks
  ∧ add_to_chroma chunks batch_size (Store m')
    = Ok (length chunks, Store m').
Proof.
  intros Hbs Hadd.
  destruct (add_to_chroma_normalized _ _ _ _ Hadd) as [normalized Hnorm].
  rewrite (add_to_chroma_store _ _ _ _ Hbs Hnorm) in Hadd.
  injection Hadd as <- <-. split; [done|].
  rewrite (add_to_chroma_store _ _ _ _ Hbs Hnorm).
  by rewrite upsert_all_twice.
Qed.

(** The batch size is not checked.  With a negative batch size the range
    of batch starts is empty: [add_to_chroma] writes nothing and still returns
    the number of chunks.  With a batch size of 0, and at least one chunk,
    [range] raises [ValueError] before anything is written. *)
Theorem add_to_chroma_bad_batch_size chunks normalized batch_size m :
  for_each normalize_chunk chunks = Ok normalized →
  ((batch_size < 0)%Z →
   add_to_chroma chunks batch_size (Store m) = Ok (length chunks, Store m))
  ∧ (batch_size = 0%Z → chunks ≠ [] →
     add_to_chroma chunks batch_size (Store m) = Raise ValueError).
Proof.
  intros Hnorm.
  set (candidates := calculate_chunk_ids normalized).
  assert (Forall (λ c, is_Some (get_id c)) candidates) as Hids.
  { apply Forall_forall. intros c Hc.
    apply calculate_chunk_ids_have_ids in Hc. by eexists. }
  assert (length candidates = length chunks) as Hlen.
  { unfold candidates. rewrite length_calculate_chunk_ids.
    symmetry. by eapply Forall2_length, for_each_ok. }
  split.
  - intros Hneg. unfold add_to_chroma.
    destruct chunks as [|c0 chunks0]; [done|].
    rewrite Hnorm. cbn [mbind result_bind].
    rewrite new_chunks_of_all. fold candidates.
    destruct candidates as [|c1 cands1] eqn:Hcands; [done|].
    rewrite <- Hcands in *.
    rewrite (for_each_metadata_id _ Hids). cbn [mbind result_bind].
    unfold add_batches, py_range.
    rewrite decide_False by lia. rewrite decide_True by lia.
    cbn [mbind result_bind fmap list_fmap add_all]. by rewrite Hlen.
  - intros -> Hne. unfold add_to_chroma.
    destruct chunks as [|c0 chunks0]; [done|].
    rewrite Hnorm. cbn [mbind result_bind].
    rewrite new_chunks_of_all. fold candidates.
    destruct candidates as [|c1 cands1] eqn:Hcands; [done|].
    rewrite <- Hcands in *.
    rewrite (for_each_metadata_id _ Hids). cbn [mbind result_bind].
    unfold add_batches, py_range. by rewrite decide_True by done.
Qed.

Lemma normalize_chunk_raises c e :
  normalize_chunk c = Raise e → e = TypeError.
Proof.
  unfold normalize_chunk.
  destruct (truthy (metadata c !! METADATA_SOURCE_KEY)); [|done].
  destruct (metadata c !! METADATA_SOURCE_KEY) as [[s|z]|]; simpl; congruence.
Qed.

Lemma normalize_chunk_integer_source c :
  integer_source (metadata c) → normalize_chunk c = Raise TypeError.
Proof.
  intros (z & Hsrc & Hz). unfold normalize_chunk. rewrite Hsrc. simpl.
  by rewrite (proj2 (Z.eqb_neq z 0)) by done.
Qed.

(** When the source of one of the chunks is a non-zero integer,
    [add_to_chroma] raises [TypeError], whatever the store and the batch
    size: the sources are normalised before the store is read. *)
Theorem add_to_chroma_integer_source chunks batch_size db :
  Exists (λ c, integer_source (metadata c)) chunks →
  add_to_chroma chunks batch_size db = Raise TypeError.
Proof.
  intros Hbad.
  assert (for_each normalize_chunk chunks = Raise TypeError) as Hnorm.
  { induction Hbad as [c rest Hc|c rest _ IH]; simpl.
    - by rewrite (normalize_chunk_integer_source c Hc).
    - destruct (normalize_chunk c) as [c'|e] eqn:Hc.
      + cbn [mbind result_bind]. by rewrite IH.
      + by rewrite (normalize_chunk_raises c e Hc). }
  unfold add_to_chroma. destruct chunks as [|c rest].
  - by apply Exists_nil in Hbad.
  - by rewrite Hnorm.
Qed.

(** ** More on deletion and listing *)

(** Deleting the same path again removes nothing: the second call returns
    0 and leaves the store as the first call left it, whatever the store and
    the path. *)
Theorem delete_again source_path db :
  delete_from_chroma_by_source source_path
    (delete_from_chroma_by_source source_path db).2
  = (0, (delete_from_chroma_by_source source_path db).2).
Proof. by rewrite !delete_removes_nothing. Qed.

(** A record whose source is a non-zero integer, on which [Path] would
    raise, changes nothing to the scans: [delete_from_chroma_by_source]
    returns 0 and deletes nothing, whatever the path, and
    [list_sources_in_chroma] returns the empty mapping, whatever the other
    records are. *)
Theorem integer_source_disables_scans m i d :
  m !! i = Some d → integer_source (metadata d) →
  (∀ source_path,
     delete_from_chroma_by_source source_path (Store m) = (0, Store m))
  ∧ list_sources_in_chroma (Store m) = ∅.
Proof.
  intros _ _. split.
  - intros source_path. apply delete_removes_nothing.
  - apply list_sources_empty.
Qed.

(** ** More on [load_docs_for_path] and [index_path] *)

Lemma load_file_tags fp name docs d :
  load_file fp name = Ok docs → d ∈ docs →
  metadata d !! METADATA_SOURCE_KEY = Some (VStr (resolve fp))
  ∧ metadata d !! "file_name" = Some (VStr name)
  ∧ metadata d !! "file_type" = Some (VStr (suffix_lower name))
  ∧ suffix_lower name ∈ SUPPORTED_LOADERS
  ∧ is_Some (metadata d !! "page").
Proof.
  unfold load_file. case_decide as Hsup.
  - destruct (loader_load (suffix_lower name) fp) as [raw|e]; [|done].
    cbn [mbind result_bind]. intros [= <-] Hd.
    apply list_elem_of_fmap in Hd as (d0 & -> & _).
    unfold tag_document. simpl.
    split; [|split; [|split; [|split; [done|]]]].
    + rewrite lookup_insert_ne by done. apply lookup_insert_eq.
    + do 3 rewrite lookup_insert_ne by done. apply lookup_insert_eq.
    + do 2 rewrite lookup_insert_ne by done. apply lookup_insert_eq.
    + rewrite lookup_insert_eq. by eexists.
  - intros [= <-] Hd. by apply elem_of_nil in Hd.
Qed.

(** Every document that [load_docs_for_path] returns is tagged: its source
    is the resolved path of the file it was loaded from (the path itself, or
    a file that [os.walk] lists under it), it has the name of that file, a
    file type that has a loader, and a page. *)
Theorem loaded_documents_are_tagged path docs d :
  load_docs_for_path path = Ok docs → d ∈ docs →
  ∃ fp name,
    ((fs path = Some (FFile name) ∧ fp = path)
     ∨ ∃ dirname entries root files,
         fs path = Some (FDir dirname entries)
         ∧ (root, files) ∈ os_walk path (FDir dirname entries)
         ∧ name ∈ files ∧ fp = joinpath root name)
    ∧ metadata d !! METADATA_SOURCE_KEY = Some (VStr (resolve fp))
    ∧ metadata d !! "file_name" = Some (VStr name)
    ∧ metadata d !! "file_type" = Some (VStr (suffix_lower name))
    ∧ suffix_lower name ∈ SUPPORTED_LOADERS
    ∧ is_Some (metadata d !! "page").
Proof.
  unfold load_docs_for_path.
  destruct (fs path) as [[name|dirname entries]|] eqn:Hfs.
  - intros Hload Hd. exists path, name.
    split; [by left | by eapply load_file_tags].
  - destruct (for_each _ (os_walk _ _)) as [per_dir|e] eqn:Hdirs; [|done].
    cbn [mbind result_bind]. intros [= <-] Hd.
    apply elem_of_concat in Hd as (ds & Hd & Hds).
    apply for_each_ok in Hdirs.
    apply list_elem_of_lookup in Hds as [k Hk].
    destruct (Forall2_lookup_r _ _ _ k ds Hdirs Hk)
      as ([root files] & Hrf & Hper).
    simpl in Hper.
    destruct (for_each _ files) as [per_file|e] eqn:Hfiles; [|done].
    cbn [mbind result_bind] in Hper. injection Hper as <-.
    apply elem_of_concat in Hd as (fdocs & Hd & Hfdocs).
    apply for_each_ok in Hfiles.
    apply list_elem_of_lookup in Hfdocs as [j Hj].
    destruct (Forall2_lookup_r _ _ _ j fdocs Hfiles Hj)
      as (fname & Hfname & Hload).
    exists (joinpath root fname), fname. split; [|by eapply load_file_tags].
    right. exists dirname, entries, root, files.
    split; [done|]. split; [|split; [|done]].
    + apply list_elem_of_lookup. by exists k.
    + apply list_elem_of_lookup. by exists j.
  - intros [= <-] Hd. by apply elem_of_nil in Hd.
Qed.

(** Indexing a file that has no loader indexes nothing and returns
    [(0, 0)]; the store is left as it was, with the records that an earlier
    indexing of the file may have written. *)
Theorem index_path_unsupported_file path name db :
  resolve_error path = None →
  fs (resolve path) = Some (FFile name) →
  suffix_lower name ∉ SUPPORTED_LOADERS →
  index_path path db = Ok (0, 0, db).
Proof.
  intros Hres Hfs Hsup. unfold index_path, resolve_path.
  rewrite Hres. cbn [mbind result_bind]. rewrite Hfs.
  rewrite bool_decide_eq_true_2 by by eexists. cbn [negb].
  rewrite delete_removes_nothing.
  unfold load_docs_for_path, load_file. rewrite Hfs.
  by rewrite decide_False by done.
Qed.

(** ** More on [clear_chroma] and [auto_reset_chroma] *)

Lemma clear_records_store m : clear_records (Store m) = Store ∅.
Proof.
  unfold clear_records.
  change (db_get DEFAULT_INCLUDE (Store m))
    with (Ok (mkGet (map_to_list m).*1 (metadata <$> (map_to_list m).*2))).
  cbn [mbind result_bind get_ids].
  destruct ((map_to_list m).*1) as [|i0 ids0] eqn:Hids.
  - apply fmap_nil_inv in Hids. apply map_to_list_empty_iff in Hids.
    by subst m.
  - rewrite <- Hids. cbn [db_delete]. f_equal.
    apply map_empty. intros i. apply map_lookup_filter_None. right.
    intros d Hd Hnot. simpl in Hnot. apply Hnot.
    apply list_elem_of_fmap. exists (i, d). split; [done|].
    by apply elem_of_map_to_list.
Qed.

(** When [clear_chroma] returns on a working store, the store has no
    record left, so that the listing is empty, and the store directory
    exists. *)
Theorem clear_chroma_empties_store m d w' :
  clear_chroma (Store m, d) = Ok w' →
  w'.1 = Store ∅
  ∧ record_count w'.1 = 0
  ∧ list_sources_in_chroma w'.1 = ∅
  ∧ dir_exists w'.2 = true.
Proof.
  unfold clear_chroma. simpl. rewrite clear_records_store.
  destruct (remove_or_mark d) as [d1|e]; [|done].
  cbn [mbind result_bind]. intros [= <-]. simpl.
  split; [done|]. split; [apply map_size_empty|].
  split; [apply list_sources_empty|]. by destruct d1.
Qed.

Lemma remove_until_locked_none es :
  Forall (λ e, locked e = false) es → remove_until_locked es = [].
Proof.
  induction 1 as [|e es He _ IH]; [done|]. simpl. by rewrite He.
Qed.

(** When no file of the store directory is locked, or the directory does
    not exist, [clear_chroma] removes every file, a stale reset marker
    included, leaves an empty directory, and writes no marker: the next
    [auto_reset_chroma] has nothing to do. *)
Theorem clear_chroma_unlocked db d :
  (∀ es, d = Some es → Forall (λ e, locked e = false) es) →
  clear_chroma (db, d) = Ok (clear_records db, Some [])
  ∧ auto_reset_chroma (Some []) = Ok (Some []).
Proof.
  intros Hfree. split; [|done].
  unfold clear_chroma, remove_or_mark. simpl.
  destruct d as [es|]; [|done]. simpl.
  by rewrite (remove_until_locked_none es (Hfree es eq_refl)).
Qed.

Lemma no_marker_after_filter es :
  existsb is_marker (filter (λ e, is_marker e = false) es) = false.
Proof.
  induction es as [|e es IH]; [done|]. rewrite filter_cons.
  destruct (decide (is_marker e = false)) as [He|He]; [|done].
  simpl. by rewrite He, IH.
Qed.

(** When [auto_reset_chroma] returns, no reset marker is left, so that a
    second call changes nothing; it creates no file (every file left was
    there before); without a marker it leaves the directory as it is, and
    with one it leaves a directory that exists. *)
Theorem auto_reset_chroma_settles d d' :
  auto_reset_chroma d = Ok d' →
  marker_exists d' = false
  ∧ auto_reset_chroma d' = Ok d'
  ∧ (marker_exists d = false → d' = d)
  ∧ (marker_exists d = true → dir_exists d' = true)
  ∧ (∀ es' e, d' = Some es' → e ∈ es' → ∃ es, d = Some es ∧ e ∈ es).
Proof.
  intros Hreset.
  assert (marker_exists d' = false
          ∧ (marker_exists d = false → d' = d)
          ∧ (marker_exists d = true → dir_exists d' = true)
          ∧ (∀ es' e, d' = Some es' → e ∈ es' → ∃ es, d = Some es ∧ e ∈ es))
    as (Hnone & Hsame & Hdir & Hold).
  { unfold auto_reset_chroma in Hreset.
    destruct (marker_exists d) eqn:Hmark.
    - destruct d as [es|]; [|done]. unfold rmtree_ignore_errors in Hreset.
      destruct (filter (λ e, locked e = true) es) as [|e0 rest] eqn:Hlocked.
      + cbn [unlink_marker mbind result_bind mkdir] in Hreset.
        injection Hreset as <-. split; [done|]. split; [done|].
        split; [done|]. intros es' e [= <-] He. by apply elem_of_nil in He.
      + unfold unlink_marker in Hreset.
        destruct (existsb (λ e, is_marker e && locked e) (e0 :: rest));
          [done|].
        cbn [mbind result_bind mkdir] in Hreset. injection Hreset as <-.
        split; [apply no_marker_after_filter|]. split; [done|].
        split; [done|]. intros es' e [= <-] He. exists es. split; [done|].
        apply list_elem_of_filter in He as [_ He]. rewrite <- Hlocked in He.
        by apply list_elem_of_filter in He as [_ He].
    - injection Hreset as <-. split; [done|]. split; [done|].
      split; [done|]. intros es' e -> He. by exists es'. }
  split; [done|]. split; [|done].
  unfold auto_reset_chroma. by rewrite Hnone.
Qed.

(** ** The deduplication loop of [query_rag] *)

Lemma unique_local_from_spec seen local_docs :
  unique_local_from seen local_docs `sublist_of` local_docs
  ∧ NoDup (get_id <$> unique_local_from seen local_docs)
  ∧ (∀ d, d ∈ unique_local_from seen local_docs →
       truthy (get_id d) = true ∧ get_id d ∉ seen)
  ∧ (∀ d, d ∈ local_docs → truthy (get_id d) = true →
       get_id d ∈ seen
       ∨ get_id d ∈ get_id <$> unique_local_from seen local_docs).
Proof.
  revert seen. induction local_docs as [|d rest IH]; intros seen.
  { split; [done|]. split; [constructor|].
    split; by intros d ?%elem_of_nil. }
  simpl.
  destruct (truthy (get_id d)) eqn:Htruthy; simpl.
  - destruct (decide (get_id d ∉ seen)) as [Hnew|Hold].
    + rewrite bool_decide_eq_true_2 by done.
      destruct (IH (get_id d :: seen)) as (Hsub & Hnd & Hkept & Hall).
      split; [by constructor|]. split; [|split].
      * rewrite fmap_cons. constructor; [|done].
        intros (d' & Heq & Hd')%list_elem_of_fmap.
        apply Hkept in Hd' as [_ Hd']. apply Hd'. rewrite <- Heq. by left.
      * intros d' [->|Hd']%elem_of_cons; [done|].
        apply Hkept in Hd' as [? Hd']. split; [done|].
        intros Hin. apply Hd'. by right.
      * intros d' [->|Hd']%elem_of_cons Ht.
        { right. rewrite fmap_cons. by left. }
        destruct (Hall d' Hd' Ht) as [[Heq|Hin]%elem_of_cons|Hin].
        -- right. rewrite fmap_cons, Heq. by left.
        -- by left.
        -- right. rewrite fmap_cons. by right.
    + rewrite bool_decide_eq_false_2 by done.
      destruct (IH seen) as (Hsub & Hnd & Hkept & Hall).
      split; [by constructor|]. split; [done|]. split; [done|].
      intros d' [->|Hd']%elem_of_cons Ht; [|by apply Hall].
      left. by destruct (decide (get_id d ∈ seen)).
  - destruct (IH seen) as (Hsub & Hnd & Hkept & Hall).
    split; [by constructor|]. split; [done|]. split; [done|].
    intros d' [->|Hd']%elem_of_cons Ht; [congruence | by apply Hall].
Qed.

(** The deduplication of [query_rag] keeps retrieved documents in their
    order and adds none; the documents it keeps have an identifier, no two of
    them the same one; and every retrieved document with an identifier has
    this identifier among the documents kept. *)
Theorem unique_local_deduplicates local_docs :
  unique_local local_docs `sublist_of` local_docs
  ∧ NoDup (get_id <$> unique_local local_docs)
  ∧ Forall (λ d, truthy (get_id d) = true) (unique_local local_docs)
  ∧ (∀ d, d ∈ local_docs → truthy (get_id d) = true →
       get_id d ∈ get_id <$> unique_local local_docs).
Proof.
  destruct (unique_local_from_spec [] local_docs)
    as (Hsub & Hnd & Hkept & Hall).
  split; [done|]. split; [done|]. split.
  - apply Forall_forall. intros d Hd. by apply Hkept.
  - intros d Hd Ht. destruct (Hall d Hd Ht) as [Hin|Hin]; [|done].
    by apply elem_of_nil in Hin.
Qed.

End Geekbot.

(** ** The functions on the sample platform *)

(** C5 fails.  The store holds an old record under the identifier of the
    first of the three sample chunks.  [add_to_chroma] does not leave this
    chunk out: it returns 3, not 2, and the old record is overwritten.  When
    the three chunks are submitted again, with every identifier in the
    store, it returns 3 again, not 0. *)
Theorem add_to_chroma_counts_present_chunks :
  id_string <$> calculate_chunk_ids Sample.chunks
  = ["/data/report/a.txt:0:0"; "/data/report/a.txt:0:1";
     "/data/report/a.txt:1:0"]
  ∧ More.stale_store !! "/data/report/a.txt:0:0" = Some More.stale_record
  ∧ ∃ m1,
      add_to_chroma Sample.resolve Sample.chunks 2 (Store More.stale_store)
      = Ok (3, Store m1)
      ∧ page_content <$> m1 !! "/data/report/a.txt:0:0" = Some "one"
      ∧ size m1 = 3
      ∧ add_to_chroma Sample.resolve Sample.chunks 2 (Store m1)
        = Ok (3, Store m1).
Proof.
  split; [vm_compute; reflexivity|]. split; [vm_compute; reflexivity|].
  eexists. split; [vm_compute; reflexivity|].
  split; [vm_compute; reflexivity|]. split; vm_compute; reflexivity.
Qed.

(** C7 fails.  The sample store holds a record of [/data/report2.txt],
    which the listing should count once; the listing has no entry for it:
    it is the empty mapping. *)
Theorem list_sources_misses_records :
  Sample.store !! "/data/report2.txt:0:0" = Some Sample.report2_record
  ∧ counted_under Sample.resolve "/data/report2.txt"
      (metadata Sample.report2_record)
  ∧ list_sources_in_chroma Sample.resolve (Store Sample.store)
      !! "/data/report2.txt" = None
  ∧ list_sources_in_chroma Sample.resolve (Store Sample.store) = ∅.
Proof.
  split; [vm_compute; reflexivity|].
  split; [split; vm_compute; reflexivity|].
  split; vm_compute; reflexivity.
Qed.

(** C1 as stated fails: after [/data/report] has been indexed into an empty
    store (2 documents, 2 chunks added), indexing it again does not return
    [(2, 0)]; it returns [(2, 2)]. *)
Lemma index_path_second_call_not_zero :
  ∃ db1,
    index_path Sample.resolve Sample.resolve_error Sample.fs
      Sample.joinpath Sample.suffix_lower Sample.loader_load
      Sample.text_splitter "/data/report" (Store ∅)
    = Ok (2, 2, db1)
    ∧ index_path Sample.resolve Sample.resolve_error Sample.fs
      Sample.joinpath Sample.suffix_lower Sample.loader_load
      Sample.text_splitter "/data/report" db1
      = Ok (2, 2, db1)
    ∧ ∀ db2,
        index_path Sample.resolve Sample.resolve_error Sample.fs
      Sample.joinpath Sample.suffix_lower Sample.loader_load
      Sample.text_splitter "/data/report" db1
        ≠ Ok (2, 0, db2).
Proof.
  eexists. split; [vm_compute; reflexivity|].
  split; [vm_compute; reflexivity|].
  intros db2 Habs. vm_compute in Habs. discriminate Habs.
Qed.


(** Adjacency of the keys of a list of three chunks, by cases on the
    positions. *)
Ltac adjacent_three :=
  let i := fresh "i" in
  let j := fresh "j" in
  let k := fresh "k" in
  let Hi := fresh "Hi" in
  let Hk := fresh "Hk" in
  intros i j k ? ? Hi Hk;
  destruct i as [|[|[|i]]]; destruct k as [|[|[|k]]];
    try (exfalso; lia); try discriminate Hk; try discriminate Hi;
    destruct j as [|[|[|j]]]; try (exfalso; lia);
    vm_compute in Hi, Hk |- *; congruence.

(** The page keys of the sample chunks are adjacent, and their identifiers
    are distinct. *)
Lemma chunk_ids_unique_in_batch_witness :
  same_page_adjacent (current_page_id <$> Sample.chunks)
  ∧ Forall typed_chunk Sample.chunks
  ∧ same_page_adjacent (page_key <$> Sample.chunks)
  ∧ NoDup (get_id <$> calculate_chunk_ids Sample.chunks)
  ∧ Forall (λ c, is_Some (get_id c)) (calculate_chunk_ids Sample.chunks).
Proof.
  assert (same_page_adjacent (current_page_id <$> Sample.chunks)) as Hids
    by adjacent_three.
  assert (same_page_adjacent (page_key <$> Sample.chunks)) as Hkeys
    by adjacent_three.
  assert (Forall typed_chunk Sample.chunks) as Htyped.
  { repeat constructor; by eexists. }
  split; [exact Hids|]. split; [exact Htyped|]. split; [exact Hkeys|].
  destruct (proj1 (chunk_ids_unique_in_batch Sample.chunks) Hids)
    as [Hnodup Hsome].
  destruct (proj2 (chunk_ids_unique_in_batch Sample.chunks) Htyped Hkeys)
    as [_ _].
  split; [exact Hnodup | exact Hsome].
Defined.

(** Four chunks with page ids [a; a; b; a]. *)
Lemma counter_reset_law_witness :
  let a := "/data/report/a.txt:0" in
  let b := "/data/report/a.txt:1" in
  let batch := [Sample.chunk 0 "one"; Sample.chunk 0 "two";
                Sample.chunk 1 "three"; Sample.chunk 0 "four"] in
  a ≠ b
  ∧ chunk_indices batch = [0; 1; 0; 0]
  ∧ get_id <$> calculate_chunk_ids batch
    = [Some (VStr (chunk_id_of a 0)); Some (VStr (chunk_id_of a 1));
       Some (VStr (chunk_id_of b 0)); Some (VStr (chunk_id_of a 0))].
Proof.
  intros a b batch. split; [discriminate|].
  apply (proj2 (proj2 (proj2 counter_reset_law))
           (Sample.chunk 0 "one") (Sample.chunk 0 "two")
           (Sample.chunk 1 "three") (Sample.chunk 0 "four") a b);
    [discriminate | vm_compute; reflexivity ..].
Defined.


Lemma sample_store_lookup i d :
  Sample.store !! i = Some d →
  d = Sample.report2_record ∨ d = Sample.anonymous_record.
Proof.
  unfold Sample.store.
  intros [[_ <-]|[_ Hd]]%lookup_insert_Some; [by left|].
  apply lookup_singleton_Some in Hd as [_ <-]. by right.
Defined.

(** Deleting a path that no record has, from the sample store. *)
Lemma delete_returns_removed_count_witness :
  (∀ m i d,
     Store Sample.store = Store m → m !! i = Some d →
     ¬ selected Sample.resolve (Sample.resolve "/data/other.txt")
         (is_dir (Sample.fs (Sample.resolve "/data/other.txt")))
         (metadata d))
  ∧ delete_from_chroma_by_source Sample.resolve Sample.fs "/data/other.txt"
      (Store Sample.store)
    = (0, Store Sample.store).
Proof.
  assert (∀ m i d,
     Store Sample.store = Store m → m !! i = Some d →
     ¬ selected Sample.resolve (Sample.resolve "/data/other.txt")
         (is_dir (Sample.fs (Sample.resolve "/data/other.txt")))
         (metadata d)) as Hnone.
  { intros m i d [= <-] Hd.
    destruct (sample_store_lookup i d Hd) as [-> | ->];
      vm_compute; discriminate. }
  split; [exact Hnone|].
  exact (proj1 (proj2 (proj2
    (delete_returns_removed_count Sample.resolve Sample.fs "/data/other.txt"
       (Store Sample.store)))) Hnone).
Defined.


(** The record without a source in the sample store. *)
Lemma falsy_source_records_invisible_witness :
  Sample.store !! ":0:0" = Some Sample.anonymous_record
  ∧ truthy (metadata Sample.anonymous_record !! METADATA_SOURCE_KEY) = false
  ∧ (∀ source_path,
       ∃ m',
         (delete_from_chroma_by_source Sample.resolve Sample.fs source_path
            (Store Sample.store)).2 = Store m'
         ∧ m' !! ":0:0" = Some Sample.anonymous_record)
  ∧ list_sources_in_chroma Sample.resolve (Store Sample.store)
    = list_sources_in_chroma Sample.resolve
        (Store (delete ":0:0" Sample.store)).
Proof.
  assert (Sample.store !! ":0:0" = Some Sample.anonymous_record) as Hd
    by (vm_compute; reflexivity).
  assert (truthy (metadata Sample.anonymous_record !! METADATA_SOURCE_KEY)
          = false) as Hfalsy by (vm_compute; reflexivity).
  split; [exact Hd|]. split; [exact Hfalsy|].
  destruct (falsy_source_records_invisible Sample.resolve Sample.fs
              Sample.store ":0:0" Sample.anonymous_record Hd Hfalsy)
    as (Hdel & Hlist & _).
  split; [exact Hdel | exact Hlist].
Defined.

(** A store directory with a locked database file. *)
Lemma clear_defers_reset_to_startup_witness :
  let es := [mkEntry "index.bin" false; mkEntry "chroma.sqlite3" true;
             mkEntry "header.bin" false] in
  let es' := [mkEntry "chroma.sqlite3" true; mkEntry "header.bin" false;
              mkEntry RESET_MARKER false] in
  remove_until_locked es ≠ []
  ∧ clear_chroma (Store Sample.store, Some es) = Ok (Store ∅, Some es')
  ∧ marker_exists (Some es') = true
  ∧ auto_reset_chroma (Some es') = Ok (Some [mkEntry "chroma.sqlite3" true])
  ∧ auto_reset_chroma (Some [mkEntry "header.bin" false;
                             mkEntry RESET_MARKER false])
    = Ok (Some []).
Proof.
  intros es es'.
  destruct clear_defers_reset_to_startup as (Hclear & Hreset & _).
  assert (remove_until_locked es ≠ []) as Hstuck by discriminate.
  split; [exact Hstuck|].
  destruct (Hclear (Store Sample.store) es Hstuck eq_refl)
    as (es1 & Hes1 & Hmark & _).
  split; [vm_compute; reflexivity|]. split; [reflexivity|].
  split.
  - exact (proj1 (Hreset es' eq_refl eq_refl)).
  - apply (Hreset [mkEntry "header.bin" false; mkEntry RESET_MARKER false]
             eq_refl eq_refl).
    repeat constructor.
Defined.

(** Indexing the sample directory twice, from the sample store. *)
Lemma index_path_twice_same_witness :
  let index := index_path Sample.resolve Sample.resolve_error Sample.fs
                 Sample.joinpath Sample.suffix_lower Sample.loader_load
                 Sample.text_splitter in
  let db1 := match index "/data/report" (Store Sample.store) with
             | Ok (_, db) => db
             | Raise _ => Broken
             end in
  index "/data/report" (Store Sample.store) = Ok (2, 2, db1)
  ∧ index "/data/report" db1 = Ok (2, 2, db1)
  ∧ record_count db1 = 4.
Proof.
  intros index db1.
  assert (index "/data/report" (Store Sample.store) = Ok (2, 2, db1))
    as Hfirst by (vm_compute; reflexivity).
  split; [exact Hfirst|]. split; [|vm_compute; reflexivity].
  exact (proj1 (index_path_twice_same Sample.resolve Sample.resolve_error
           Sample.fs Sample.joinpath Sample.suffix_lower Sample.loader_load
           Sample.text_splitter "/data/report" Sample.store (2, 2) db1
           Hfirst)).
Defined.

(** ** The further properties on the sample data *)

Lemma calculate_chunk_ids_only_writes_id_witness :
  length (calculate_chunk_ids Sample.chunks) = length Sample.chunks
  ∧ page_content <$> calculate_chunk_ids Sample.chunks
    = page_content <$> Sample.chunks.
Proof.
  destruct (calculate_chunk_ids_only_writes_id Sample.chunks)
    as [Hlen Hkeeps].
  split; [exact Hlen|]. vm_compute. reflexivity.
Defined.

(** Three chunks of one page. *)
Lemma single_page_counters_witness :
  Forall (λ c, current_page_id c = "/data/report/a.txt:0") More.single_page
  ∧ chunk_indices More.single_page = [0; 1; 2].
Proof.
  assert (Forall (λ c, current_page_id c = "/data/report/a.txt:0")
            More.single_page) as Hall.
  { repeat constructor; vm_compute; reflexivity. }
  split; [exact Hall|].
  exact (proj1 (single_page_counters More.single_page _ Hall)).
Defined.

(** Page 0, then page 1, then page 0 again. *)
Lemma separated_runs_share_an_id_witness :
  page_starts_at More.scattered 0
  ∧ page_starts_at More.scattered 2
  ∧ ¬ NoDup (get_id <$> calculate_chunk_ids More.scattered).
Proof.
  assert (page_starts_at More.scattered 2) as Hs2.
  { exists (Sample.chunk 1 "two"), (Sample.chunk 0 "three").
    split; [reflexivity|]. split; [reflexivity|].
    vm_compute. discriminate. }
  split; [exact I|]. split; [exact Hs2|].
  refine (proj2 (proj2 (separated_runs_share_an_id More.scattered 0 2
            (Sample.chunk 0 "one") (Sample.chunk 0 "three")
            _ eq_refl eq_refl _ I Hs2))).
  - discriminate.
  - vm_compute. reflexivity.
Defined.

(** The sample chunks submitted twice, in batches of two. *)
Lemma add_to_chroma_again_witness :
  let m1 := match add_to_chroma Sample.resolve Sample.chunks 2
                    (Store Sample.store) with
            | Ok (_, Store m') => m'
            | _ => ∅
            end in
  (0 < 2)%Z
  ∧ add_to_chroma Sample.resolve Sample.chunks 2 (Store Sample.store)
    = Ok (3, Store m1)
  ∧ add_to_chroma Sample.resolve Sample.chunks 2 (Store m1)
    = Ok (3, Store m1).
Proof.
  intros m1.
  assert (add_to_chroma Sample.resolve Sample.chunks 2 (Store Sample.store)
          = Ok (3, Store m1)) as Hfirst by (vm_compute; reflexivity).
  split; [lia|]. split; [exact Hfirst|].
  exact (proj2 (add_to_chroma_again Sample.resolve Sample.chunks 2
                  Sample.store 3 m1 ltac:(lia) Hfirst)).
Defined.

(** The sample chunks with the batch sizes -1 and 0. *)
Lemma add_to_chroma_bad_batch_size_witness :
  for_each (normalize_chunk Sample.resolve) Sample.chunks = Ok Sample.chunks
  ∧ add_to_chroma Sample.resolve Sample.chunks (-1) (Store Sample.store)
    = Ok (3, Store Sample.store)
  ∧ add_to_chroma Sample.resolve Sample.chunks 0 (Store Sample.store)
    = Raise ValueError.
Proof.
  assert (for_each (normalize_chunk Sample.resolve) Sample.chunks
          = Ok Sample.chunks) as Hnorm by (vm_compute; reflexivity).
  split; [exact Hnorm|].
  destruct (add_to_chroma_bad_batch_size Sample.resolve Sample.chunks
              Sample.chunks (-1) Sample.store Hnorm) as [Hneg _].
  destruct (add_to_chroma_bad_batch_size Sample.resolve Sample.chunks
              Sample.chunks 0 Sample.store Hnorm) as [_ Hzero].
  split.
  - exact (Hneg ltac:(lia)).
  - apply Hzero; [reflexivity | discriminate].
Defined.

(** A chunk whose source is the integer 7. *)
Lemma add_to_chroma_integer_source_witness :
  Exists (λ c, integer_source (metadata c))
    [Sample.chunk 0 "one"; More.integer_record]
  ∧ add_to_chroma Sample.resolve
      [Sample.chunk 0 "one"; More.integer_record] 2000 (Store Sample.store)
    = Raise TypeError.
Proof.
  assert (Exists (λ c, integer_source (metadata c))
            [Sample.chunk 0 "one"; More.integer_record]) as Hbad.
  { apply Exists_cons_tl, Exists_cons_hd. exists 7%Z.
    split; [reflexivity | discriminate]. }
  split; [exact Hbad|].
  exact (add_to_chroma_integer_source Sample.resolve _ 2000 _ Hbad).
Defined.

Lemma sample_store_paths i d :
  Sample.store !! i = Some d → source_is_path (metadata d).
Proof.
  intros Hd.
  destruct (sample_store_lookup i d Hd) as [-> | ->]; vm_compute; exact I.
Defined.

(** The store after the sample chunks have been added. *)
Lemma add_to_chroma_keeps_paths_witness :
  let m1 := match add_to_chroma Sample.resolve Sample.chunks 2
                    (Store Sample.store) with
            | Ok (_, Store m') => m'
            | _ => ∅
            end in
  (0 < 2)%Z
  ∧ add_to_chroma Sample.resolve Sample.chunks 2 (Store Sample.store)
    = Ok (3, Store m1)
  ∧ ∀ i d, m1 !! i = Some d → source_is_path (metadata d).
Proof.
  intros m1.
  assert (add_to_chroma Sample.resolve Sample.chunks 2 (Store Sample.store)
          = Ok (3, Store m1)) as Hfirst by (vm_compute; reflexivity).
  split; [lia|]. split; [exact Hfirst|].
  exact (add_to_chroma_keeps_paths Sample.resolve Sample.chunks 2
           Sample.store 3 m1 ltac:(lia) sample_store_paths Hfirst).
Defined.

(** A store with a record whose source is the integer 7. *)
Lemma integer_source_disables_scans_witness :
  More.poisoned !! "7:0:0" = Some More.integer_record
  ∧ integer_source (metadata More.integer_record)
  ∧ delete_from_chroma_by_source Sample.resolve Sample.fs
      "/data/report2.txt" (Store More.poisoned)
    = (0, Store More.poisoned)
  ∧ list_sources_in_chroma Sample.resolve (Store More.poisoned) = ∅.
Proof.
  assert (More.poisoned !! "7:0:0" = Some More.integer_record) as Hd
    by (vm_compute; reflexivity).
  assert (integer_source (metadata More.integer_record)) as Hint.
  { exists 7%Z. split; [reflexivity | discriminate]. }
  split; [exact Hd|]. split; [exact Hint|].
  destruct (integer_source_disables_scans Sample.resolve Sample.fs
              More.poisoned "7:0:0" More.integer_record Hd Hint)
    as [Hdel Hlist].
  split; [apply Hdel | exact Hlist].
Defined.

(** The first document loaded from the sample directory. *)
Lemma loaded_documents_are_tagged_witness :
  let load := load_docs_for_path Sample.resolve Sample.fs Sample.joinpath
                Sample.suffix_lower Sample.loader_load in
  let docs := match load "/data/report" with Ok docs => docs | _ => [] end in
  let d := default (mkDocument EmptyString ∅) (head docs) in
  load "/data/report" = Ok docs
  ∧ d ∈ docs
  ∧ ∃ fp name,
      metadata d !! METADATA_SOURCE_KEY = Some (VStr (Sample.resolve fp))
      ∧ metadata d !! "file_name" = Some (VStr name)
      ∧ is_Some (metadata d !! "page").
Proof.
  intros load docs d.
  assert (load "/data/report" = Ok docs) as Hload by reflexivity.
  assert (d ∈ docs) as Hd by (vm_compute; left).
  split; [exact Hload|]. split; [exact Hd|].
  destruct (loaded_documents_are_tagged Sample.resolve Sample.fs
              Sample.joinpath Sample.suffix_lower Sample.loader_load
              "/data/report" docs d Hload Hd)
    as (fp & name & _ & Hsrc & Hname & _ & _ & Hpage).
  exists fp, name. split; [exact Hsrc|]. split; [exact Hname | exact Hpage].
Defined.

(** The file [/data/report2.txt] on a platform without a loader for it:
    its record stays in the store. *)
Lemma index_path_unsupported_file_witness :
  Sample.resolve_error "/data/report2.txt" = None
  ∧ Sample.fs (Sample.resolve "/data/report2.txt")
    = Some (FFile "report2.txt")
  ∧ (More.unsupported "report2.txt" ∉ SUPPORTED_LOADERS)
  ∧ index_path Sample.resolve Sample.resolve_error Sample.fs Sample.joinpath
      More.unsupported Sample.loader_load Sample.text_splitter
      "/data/report2.txt" (Store Sample.store)
    = Ok (0, 0, Store Sample.store).
Proof.
  assert (More.unsupported "report2.txt" ∉ SUPPORTED_LOADERS) as Hsup.
  { intros Hin. apply list_elem_of_In in Hin. vm_compute in Hin.
    repeat (destruct Hin as [Hin|Hin]; [discriminate Hin|]). exact Hin. }
  split; [reflexivity|]. split; [reflexivity|]. split; [exact Hsup|].
  exact (index_path_unsupported_file Sample.resolve Sample.resolve_error
           Sample.fs Sample.joinpath More.unsupported Sample.loader_load
           Sample.text_splitter "/data/report2.txt" "report2.txt"
           (Store Sample.store) eq_refl eq_refl Hsup).
Defined.

(** Clearing the sample store with an unlocked store directory. *)
Lemma clear_chroma_empties_store_witness :
  clear_chroma (Store Sample.store, Some More.unlocked_dir)
  = Ok (Store ∅, Some [])
  ∧ list_sources_in_chroma Sample.resolve (Store ∅) = ∅.
Proof.
  assert (clear_chroma (Store Sample.store, Some More.unlocked_dir)
          = Ok (Store ∅, Some [])) as Hclear by (vm_compute; reflexivity).
  split; [exact Hclear|].
  exact (proj1 (proj2 (proj2
    (clear_chroma_empties_store Sample.resolve Sample.store
       (Some More.unlocked_dir) (Store ∅, Some []) Hclear)))).
Defined.

Lemma clear_chroma_unlocked_witness :
  (∀ es, Some More.unlocked_dir = Some es →
         Forall (λ e, locked e = false) es)
  ∧ clear_chroma (Broken, Some More.unlocked_dir) = Ok (Broken, Some []).
Proof.
  assert (∀ es, Some More.unlocked_dir = Some es →
                Forall (λ e, locked e = false) es) as Hfree.
  { intros es [= <-]. repeat constructor. }
  split; [exact Hfree|].
  exact (proj1 (clear_chroma_unlocked Broken (Some More.unlocked_dir) Hfree)).
Defined.

(** A store directory with a marker and a locked file. *)
Lemma auto_reset_chroma_settles_witness :
  auto_reset_chroma (Some More.marked_dir)
  = Ok (Some [mkEntry "chroma.sqlite3" true])
  ∧ marker_exists (Some [mkEntry "chroma.sqlite3" true]) = false
  ∧ auto_reset_chroma (Some [mkEntry "chroma.sqlite3" true])
    = Ok (Some [mkEntry "chroma.sqlite3" true]).
Proof.
  assert (auto_reset_chroma (Some More.marked_dir)
          = Ok (Some [mkEntry "chroma.sqlite3" true])) as Hreset
    by reflexivity.
  split; [exact Hreset|].
  destruct (auto_reset_chroma_settles _ _ Hreset) as (Hnone & Hagain & _).
  split; [exact Hnone | exact Hagain].
Defined.

(** Five retrieved documents, two identifiers. *)
Lemma unique_local_deduplicates_witness :
  unique_local More.local_docs
  = [More.retrieved "a:0:0" "first"; More.retrieved "b:0:0" "second"]
  ∧ NoDup (get_id <$> unique_local More.local_docs).
Proof.
  split; [vm_compute; reflexivity|].
  exact (proj1 (proj2 (unique_local_deduplicates More.local_docs))).
Defined.

(** Indexing the sample directory into a store with a record that the
    file no longer has, then deleting the directory. *)
Lemma index_path_never_purges_witness :
  let index := index_path Sample.resolve Sample.resolve_error Sample.fs
                 Sample.joinpath Sample.suffix_lower Sample.loader_load
                 Sample.text_splitter in
  let db1 := match index "/data/report" (Store More.leftover_store) with
             | Ok (_, db) => db
             | Raise _ => Broken
             end in
  index "/data/report" (Store More.leftover_store) = Ok (2, 2, db1)
  ∧ record_count db1 = 3
  ∧ is_Some (match db1 with
             | Store m1 => m1 !! "/data/report/a.txt:0:1"
             | Broken => None
             end)
  ∧ delete_from_chroma_by_source Sample.resolve Sample.fs
      (Sample.resolve "/data/report") db1
    = (0, db1).
Proof.
  intros index db1.
  assert (index "/data/report" (Store More.leftover_store) = Ok (2, 2, db1))
    as Hfirst by (vm_compute; reflexivity).
  split; [exact Hfirst|]. split; [vm_compute; reflexivity|].
  split; [vm_compute; by eexists|].
  destruct (index_path_never_purges Sample.resolve Sample.resolve_error
              Sample.fs Sample.joinpath Sample.suffix_lower
              Sample.loader_load Sample.text_splitter "/data/report"
              More.leftover_store (2, 2) db1 Hfirst)
    as (m1 & _ & _ & _ & Hdel).
  exact Hdel.
Defined.
